(** * Whiplash: task registry, overlap analysis and refresh driver

    A shallow embedding of the TypeScript sources

    - [utils/tauri.ts]   : the [invoke] wrapper with its in-memory mock backend
                           ([mockWorktrees], [mockTasks], [mockOverlapAnalysis]);
    - [hooks/useClaudeCode.ts]       : [refreshTasks], [startTask], [cancelTask],
                           [getTaskStatus], [cleanupCompletedTasks] and the
                           polling effect;
    - [hooks/useOverlapAnalysis.ts]  : the payload mapping of [analyzeOverlaps];
    - [components/WorktreeList.tsx]  : [handleStartTask].

    JavaScript objects live in a store indexed by locations, so that the
    closure registered by [setTimeout] and the array [mockTasks] alias the same
    task object.  Clock readings ([Date.now()], [new Date()]) are explicit
    inputs, in milliseconds since the epoch. *)

From Stdlib Require Import ZArith QArith Ascii.
From stdpp Require Import base gmap list strings pretty.

Set Warnings "-register-all".
Local Open Scope string_scope.
Local Open Scope list_scope.
Local Open Scope Z_scope.

(** ** JavaScript values crossing the [invoke] boundary *)

Inductive JsVal :=
| JUndefined
| JNull
| JBool (b : bool)
| JNum (q : Q)
| JStr (s : string)
| JDate (ms : option Z)            (* [None] is the Invalid Date *)
| JArr (xs : list JsVal)
| JObj (fields : list (string * JsVal)).

Definition JInt (n : Z) : JsVal := JNum (inject_Z n).

(** What a [throw] carries: an [Error] instance (a [TypeError] is one) with
    its message, or any other value (a rejected backend promise carries the
    backend's own value). *)
Inductive Thrown :=
| JsError (message : string)
| JsOther (v : JsVal).

Inductive Outcome (A : Type) :=
| Resolved (a : A)
| Rejected (e : Thrown).
Arguments Resolved {A} a.
Arguments Rejected {A} e.

#[global] Instance Outcome_ret : MRet Outcome := λ A a, Resolved a.
#[global] Instance Outcome_bind : MBind Outcome := λ A B f m,
  match m with
  | Resolved a => f a
  | Rejected e => Rejected e
  end.

#[global] Instance Outcome_fmap : FMap Outcome := λ A B f m,
  match m with
  | Resolved a => Resolved (f a)
  | Rejected e => Rejected e
  end.

Definition resolved {A} (o : Outcome A) : bool :=
  match o with Resolved _ => true | Rejected _ => false end.

(** [err instanceof Error ? err.message : fallback] *)
Definition message_or (fallback : string) (e : Thrown) : string :=
  match e with
  | JsError m => m
  | JsOther _ => fallback
  end.

Fixpoint assoc (k : string) (fs : list (string * JsVal)) : option JsVal :=
  match fs with
  | [] => None
  | (k', v) :: fs' => if bool_decide (k' = k) then Some v else assoc k fs'
  end.

(** [v.k] for the property names the hooks read (none of them is a built-in
    property of a primitive, an array or a Date).  The messages are V8's. *)
Definition get_prop (v : JsVal) (k : string) : Outcome JsVal :=
  match v with
  | JUndefined =>
      Rejected (JsError ("Cannot read properties of undefined (reading '" +:+ k +:+ "')"))
  | JNull =>
      Rejected (JsError ("Cannot read properties of null (reading '" +:+ k +:+ "')"))
  | JObj fs => Resolved (default JUndefined (assoc k fs))
  | _ => Resolved JUndefined
  end.

(** JavaScript truthiness, as used by [x ? a : b]. *)
Definition truthy (v : JsVal) : bool :=
  match v with
  | JUndefined | JNull => false
  | JBool b => b
  | JNum q => negb (Qeq_bool q 0)
  | JStr s => negb (bool_decide (s = ""))
  | JDate _ | JArr _ | JObj _ => true
  end.

(** [recv.map(f)]; [what] is the source text of the receiver, which V8 quotes
    when the receiver has no [map] to call. *)
Definition js_map (what : string) (f : JsVal → Outcome JsVal) (recv : JsVal)
  : Outcome (list JsVal) :=
  match recv with
  | JArr xs => mapM f xs
  | JUndefined =>
      Rejected (JsError "Cannot read properties of undefined (reading 'map')")
  | JNull =>
      Rejected (JsError "Cannot read properties of null (reading 'map')")
  | _ => Rejected (JsError (what +:+ ".map is not a function"))
  end.

(** ** Data model ([types/index.ts]) *)

Inductive WorktreeStatus := active | idle | error.
Inductive TaskStatus := pending | running | completed | failed.
Inductive ConflictRisk := low | medium | high.

#[global] Instance TaskStatus_eq_dec : EqDecision TaskStatus.
Proof. solve_decision. Defined.

Record GitWorktree := {
  wt_id : string;
  wt_name : string;
  wt_branch : string;
  wt_path : string;
  wt_status : WorktreeStatus;
  wt_createdAt : Z;
  wt_lastActivity : Z;
}.

Record ClaudeTask := {
  task_id : string;
  description : string;
  status : TaskStatus;
  startedAt : option Z;
  completedAt : option Z;
  output : list string;
  workingDirectory : string;
}.

Record FileOverlap := {
  filePath : string;
  worktrees : list string;
  conflictRisk : ConflictRisk;
  lastModified : list (string * Z);
}.

Record RiskAssessment := { ra_low : Z; ra_medium : Z; ra_high : Z }.

Record OverlapAnalysis := {
  totalOverlaps : Z;
  fileOverlaps : list FileOverlap;
  riskAssessment : RiskAssessment;
  recommendations : list string;
}.

(** The objects as the JavaScript runtime sees them: own properties under the
    camelCase names of the interfaces; an optional field that was never
    assigned is absent. *)

Definition WorktreeStatus_js (s : WorktreeStatus) : JsVal :=
  JStr match s with active => "active" | idle => "idle" | error => "error" end.
Definition TaskStatus_js (s : TaskStatus) : JsVal :=
  JStr match s with
       | pending => "pending" | running => "running"
       | completed => "completed" | failed => "failed"
       end.
Definition ConflictRisk_js (r : ConflictRisk) : JsVal :=
  JStr match r with low => "low" | medium => "medium" | high => "high" end.

Definition strings_js (l : list string) : JsVal := JArr (JStr <$> l).
Definition Date_js (ms : Z) : JsVal := JDate (Some ms).

Definition optional (k : string) (o : option Z) : list (string * JsVal) :=
  match o with
  | Some ms => [(k, Date_js ms)]
  | None => []
  end.

Definition GitWorktree_js (w : GitWorktree) : JsVal :=
  JObj [("id", JStr (wt_id w)); ("name", JStr (wt_name w));
        ("branch", JStr (wt_branch w)); ("path", JStr (wt_path w));
        ("status", WorktreeStatus_js (wt_status w));
        ("createdAt", Date_js (wt_createdAt w));
        ("lastActivity", Date_js (wt_lastActivity w))].

Definition ClaudeTask_js (t : ClaudeTask) : JsVal :=
  JObj ([("id", JStr (task_id t)); ("description", JStr (description t));
         ("status", TaskStatus_js (status t))]
        ++ optional "startedAt" (startedAt t)
        ++ optional "completedAt" (completedAt t)
        ++ [("output", strings_js (output t));
            ("workingDirectory", JStr (workingDirectory t))]).

Definition FileOverlap_js (o : FileOverlap) : JsVal :=
  JObj [("filePath", JStr (filePath o)); ("worktrees", strings_js (worktrees o));
        ("conflictRisk", ConflictRisk_js (conflictRisk o));
        ("lastModified", JObj (prod_map (λ k, k) Date_js <$> lastModified o))].

Definition OverlapAnalysis_js (a : OverlapAnalysis) : JsVal :=
  JObj [("totalOverlaps", JInt (totalOverlaps a));
        ("fileOverlaps", JArr (FileOverlap_js <$> fileOverlaps a));
        ("riskAssessment",
          JObj [("low", JInt (ra_low (riskAssessment a)));
                ("medium", JInt (ra_medium (riskAssessment a)));
                ("high", JInt (ra_high (riskAssessment a)))]);
        ("recommendations", strings_js (recommendations a))].

(** ** The mock backend of [utils/tauri.ts] *)

Definition loc := nat.

(** Module-level mutable state.  [heap] holds the task objects; [mockTasks]
    is the array of references to them; [timers] are the callbacks registered
    by [setTimeout] and not yet run, each with its due time and the task
    object its closure captured. *)
Record Mock := {
  heap : gmap loc ClaudeTask;
  mockWorktrees : list GitWorktree;
  mockTasks : list loc;
  timers : list (Z * loc);
}.

(** The date literals carry no zone designator; they are read here as UTC
    (2024-01-01T00:00:00Z is 1704067200000). *)
Definition at_2024_01_01 (h m : Z) : Z := 1704067200000 + h * 3600000 + m * 60000.

Definition mockWorktrees0 : list GitWorktree :=
  [ {| wt_id := "wt-1"; wt_name := "frontend-feature";
       wt_branch := "feature/ui-components"; wt_path := "/tmp/frontend-feature";
       wt_status := active;
       wt_createdAt := at_2024_01_01 10 0; wt_lastActivity := at_2024_01_01 12 30 |};
    {| wt_id := "wt-2"; wt_name := "backend-api";
       wt_branch := "feature/auth-api"; wt_path := "/tmp/backend-api";
       wt_status := active;
       wt_createdAt := at_2024_01_01 9 30; wt_lastActivity := at_2024_01_01 11 45 |} ].

Definition mockTask1 : ClaudeTask :=
  {| task_id := "task-1";
     description := "Implement user authentication components";
     status := running;
     startedAt := Some (at_2024_01_01 12 0);
     completedAt := None;
     output := ["Starting task..."; "Creating Login component";
                "Adding form validation"; "Implementing auth hooks"];
     workingDirectory := "/tmp/frontend-feature" |}.

Definition mockTask2 : ClaudeTask :=
  {| task_id := "task-2";
     description := "Add JWT authentication endpoints";
     status := completed;
     startedAt := Some (at_2024_01_01 10 30);
     completedAt := Some (at_2024_01_01 11 45);
     output := ["Task completed successfully"; "Added /auth/login endpoint";
                "Added /auth/refresh endpoint"; "Updated user types"];
     workingDirectory := "/tmp/backend-api" |}.

Definition mockOverlapAnalysis : OverlapAnalysis :=
  {| totalOverlaps := 2;
     fileOverlaps :=
       [ {| filePath := "types/index.ts";
            worktrees := ["frontend-feature"; "backend-api"];
            conflictRisk := high;
            lastModified := [("frontend-feature", at_2024_01_01 12 30);
                             ("backend-api", at_2024_01_01 11 45)] |};
         {| filePath := "package.json";
            worktrees := ["frontend-feature"; "backend-api"];
            conflictRisk := medium;
            lastModified := [("frontend-feature", at_2024_01_01 10 15);
                             ("backend-api", at_2024_01_01 9 45)] |} ];
     riskAssessment := {| ra_low := 0; ra_medium := 1; ra_high := 1 |};
     recommendations :=
       [ "⚠️ 1 files have high conflict risk. Consider coordinating changes or merging frequently.";
         "⚡ 1 files have medium conflict risk. Review changes before merging.";
         "🔥 Most problematic file: types/index.ts (modified in 2 worktrees)" ] |}.

(** The state when the module has just been loaded. *)
Definition initial : Mock :=
  {| heap := {[ 0%nat := mockTask1; 1%nat := mockTask2 ]};
     mockWorktrees := mockWorktrees0;
     mockTasks := [0%nat; 1%nat];
     timers := [] |}.

(** [mockTasks[i]], dereferenced. *)
Definition task_at (s : Mock) (l : loc) : option ClaudeTask := heap s !! l.

(** The tasks of the registry, in array order. *)
Definition listed (s : Mock) : list ClaudeTask := omap (task_at s) (mockTasks s).

(** [mockTasks.find(t => t.id === taskId)]: the first match, by reference. *)
Fixpoint find_task (h : gmap loc ClaudeTask) (ls : list loc) (taskId : string)
  : option loc :=
  match ls with
  | [] => None
  | l :: ls' =>
      match h !! l with
      | Some t => if bool_decide (task_id t = taskId) then Some l
                  else find_task h ls' taskId
      | None => find_task h ls' taskId
      end
  end.

(** [mockWorktrees.findIndex(wt => wt.name === name)] *)
Fixpoint findIndex_name (name : string) (ws : list GitWorktree) : option nat :=
  match ws with
  | [] => None
  | w :: ws' => if bool_decide (wt_name w = name) then Some 0%nat
                else S <$> findIndex_name name ws'
  end.

(** *** [case 'create_worktree'] and [case 'delete_worktree'] *)

Definition create_worktree (name branch : string) (now : Z) (s : Mock)
  : GitWorktree * Mock :=
  let newWorktree :=
    {| wt_id := "wt-" +:+ pretty now; wt_name := name; wt_branch := branch;
       wt_path := "/tmp/" +:+ name; wt_status := active;
       wt_createdAt := now; wt_lastActivity := now |} in
  (newWorktree,
   {| heap := heap s; mockWorktrees := mockWorktrees s ++ [newWorktree];
      mockTasks := mockTasks s; timers := timers s |}).

Definition delete_worktree (name : string) (s : Mock) : Mock :=
  match findIndex_name name (mockWorktrees s) with
  | Some index =>
      {| heap := heap s; mockWorktrees := delete index (mockWorktrees s);
         mockTasks := mockTasks s; timers := timers s |}
  | None => s
  end.

(** *** [case 'start_claude_task'] *)

Definition new_task (workingDirectory taskDescription : string) (now : Z)
  : ClaudeTask :=
  {| task_id := "task-" +:+ pretty now;
     description := taskDescription;
     status := running;
     startedAt := Some now;
     completedAt := None;
     output := ["Task started..."; "Analyzing codebase..."];
     workingDirectory := workingDirectory |}.

(** The new object gets a location not yet in the store; it is pushed onto
    [mockTasks], and [setTimeout(..., 5000)] registers the completion
    callback, which keeps the reference to the object. *)
Definition start_claude_task (workingDirectory taskDescription : string)
    (now : Z) (s : Mock) : string * Mock :=
  let newTask := new_task workingDirectory taskDescription now in
  let l := fresh (dom (heap s)) in
  (task_id newTask,
   {| heap := <[l := newTask]> (heap s);
      mockWorktrees := mockWorktrees s;
      mockTasks := mockTasks s ++ [l];
      timers := timers s ++ [(now + 5000, l)] |}).

(** The callback of the timer: it writes to the captured object, whatever its
    status and whether or not it is still in [mockTasks]. *)
Definition complete_task (now : Z) (t : ClaudeTask) : ClaudeTask :=
  {| task_id := task_id t; description := description t;
     status := completed;
     startedAt := startedAt t;
     completedAt := Some now;
     output := output t ++ ["Task completed successfully!"];
     workingDirectory := workingDirectory t |}.

(** The event loop runs the [k]-th pending callback when the clock reads
    [now]; not before it is due. *)
Definition run_timer (k : nat) (now : Z) (s : Mock) : option Mock :=
  match timers s !! k with
  | Some (due, l) =>
      if bool_decide (due ≤ now) then
        Some {| heap := alter (complete_task now) l (heap s);
                mockWorktrees := mockWorktrees s;
                mockTasks := mockTasks s;
                timers := delete k (timers s) |}
      else None
  | None => None
  end.

(** *** [case 'get_claude_task_status'] *)

Definition get_claude_task_status (taskId : string) (s : Mock)
  : option ClaudeTask :=
  l ← find_task (heap s) (mockTasks s) taskId; heap s !! l.

(** *** [case 'cancel_claude_task'] *)

Definition cancel_task (now : Z) (t : ClaudeTask) : ClaudeTask :=
  {| task_id := task_id t; description := description t;
     status := failed;
     startedAt := startedAt t;
     completedAt := Some now;
     output := output t ++ ["Task cancelled by user"];
     workingDirectory := workingDirectory t |}.

Definition cancel_claude_task (taskId : string) (now : Z) (s : Mock) : Mock :=
  match find_task (heap s) (mockTasks s) taskId with
  | Some taskToCancel =>
      {| heap := alter (cancel_task now) taskToCancel (heap s);
         mockWorktrees := mockWorktrees s;
         mockTasks := mockTasks s;
         timers := timers s |}
  | None => s
  end.

(** *** [case 'cleanup_completed_claude_tasks'] *)

(** [task.status === 'completed' && task.completedAt && task.completedAt < oneHourAgo];
    a Date object is truthy. *)
Definition stale (oneHourAgo : Z) (task : ClaudeTask) : bool :=
  bool_decide (status task = completed) &&
  match completedAt task with
  | Some c => bool_decide (c < oneHourAgo)
  | None => false
  end.

Definition stale_at (h : gmap loc ClaudeTask) (oneHourAgo : Z) (l : loc) : bool :=
  match h !! l with
  | Some task => stale oneHourAgo task
  | None => false
  end.

(** [for (let i = n - 1; i >= 0; i--) { if (...) mockTasks.splice(i, 1) }] *)
Fixpoint cleanup_loop (h : gmap loc ClaudeTask) (oneHourAgo : Z) (n : nat)
    (ls : list loc) : list loc :=
  match n with
  | O => ls
  | S i =>
      cleanup_loop h oneHourAgo i
        match ls !! i with
        | Some l => if stale_at h oneHourAgo l then delete i ls else ls
        | None => ls
        end
  end.

Definition cleanup_completed_claude_tasks (now : Z) (s : Mock) : Z * Mock :=
  let beforeCount := length (mockTasks s) in
  let oneHourAgo := now - 60 * 60 * 1000 in
  let ls := cleanup_loop (heap s) oneHourAgo (length (mockTasks s)) (mockTasks s) in
  (Z.of_nat beforeCount - Z.of_nat (length ls),
   {| heap := heap s; mockWorktrees := mockWorktrees s;
      mockTasks := ls; timers := timers s |}).

(** *** The command switch and [invoke] *)

(** A command string with the argument object the hooks pass for it.
    [OtherCommand] stands for every string without a [case]. *)
Inductive Command :=
| ListWorktrees (repoPath : string)
| CreateWorktree (repoPath name branch : string)
| DeleteWorktree (repoPath name : string)
| GetWorktreeStatus
| GetModifiedFiles
| ListClaudeTasks
| StartClaudeTask (worktreeName workingDirectory taskDescription : string)
| GetClaudeTaskStatus (taskId : string)
| CancelClaudeTask (taskId : string)
| CleanupCompletedClaudeTasks
| AnalyzeWorktreeOverlaps (repoPath : string)
| AnalyzeFileDependencies (repoPath : string) (filePaths : list string)
| OtherCommand (command : string).

Definition mock_dependencies : JsVal :=
  JArr [ JObj [("file_path", JStr "src/App.tsx");
               ("dependencies", strings_js ["./components/Header"; "./hooks/useAuth"]);
               ("dependents", strings_js []);
               ("impact_score", JNum (85 # 10))];
         JObj [("file_path", JStr "types/index.ts");
               ("dependencies", strings_js []);
               ("dependents", strings_js ["src/App.tsx"; "src/components/UserList.tsx"]);
               ("impact_score", JNum (92 # 10))] ].

(** The [switch] of the mock implementations, run when the clock reads
    [now].  Objects are returned as they are ([as T] converts nothing). *)
Definition mock (c : Command) (now : Z) (s : Mock) : Outcome JsVal * Mock :=
  match c with
  | ListWorktrees _ =>
      (Resolved (JArr (GitWorktree_js <$> mockWorktrees s)), s)
  | CreateWorktree _ name branch =>
      let '(newWorktree, s') := create_worktree name branch now s in
      (Resolved (GitWorktree_js newWorktree), s')
  | DeleteWorktree _ name =>
      (Resolved JUndefined, delete_worktree name s)
  | GetWorktreeStatus =>
      (Resolved (strings_js ["modified: src/App.tsx";
                             "new: src/components/NewComponent.tsx"]), s)
  | GetModifiedFiles =>
      (Resolved (strings_js ["src/App.tsx"; "src/components/NewComponent.tsx";
                             "types/index.ts"]), s)
  | ListClaudeTasks =>
      (Resolved (JArr (ClaudeTask_js <$> listed s)), s)
  | StartClaudeTask _ workingDirectory taskDescription =>
      let '(taskId, s') := start_claude_task workingDirectory taskDescription now s in
      (Resolved (JStr taskId), s')
  | GetClaudeTaskStatus taskId =>
      (Resolved (from_option ClaudeTask_js JUndefined (get_claude_task_status taskId s)), s)
  | CancelClaudeTask taskId =>
      (Resolved JUndefined, cancel_claude_task taskId now s)
  | CleanupCompletedClaudeTasks =>
      let '(n, s') := cleanup_completed_claude_tasks now s in
      (Resolved (JInt n), s')
  | AnalyzeWorktreeOverlaps _ =>
      (Resolved (OverlapAnalysis_js mockOverlapAnalysis), s)
  | AnalyzeFileDependencies _ _ =>
      (Resolved mock_dependencies, s)
  | OtherCommand command =>
      (Rejected (JsError ("Command " +:+ command +:+ " not implemented in mock mode")), s)
  end.

(** What stands behind [tauriInvoke] at one call: the variable is [null]
    (web mode), or the backend answers the call, or it fails it. *)
Inductive Tauri :=
| NoTauri
| TauriResolves (result : JsVal)
| TauriRejects (error : Thrown).

(** [invoke]: the backend's result when it gives one; otherwise, also when
    the backend call failed and was caught, the mock implementation.  The
    simulated network delay only postpones the [switch]; [now] is the clock
    reading when the [switch] runs. *)
Definition invoke (tauri : Tauri) (c : Command) (now : Z) (s : Mock)
  : Outcome JsVal * Mock :=
  match tauri with
  | TauriResolves result => (Resolved result, s)
  | TauriRejects _ | NoTauri => mock c now s
  end.

(** One step of the whole mock: a command arrives, or a timer runs. *)
Inductive Event :=
| Call (tauri : Tauri) (c : Command) (now : Z)
| Timeout (k : nat) (now : Z).

Definition step (e : Event) (s : Mock) : option Mock :=
  match e with
  | Call tauri c now => Some (invoke tauri c now s).2
  | Timeout k now => run_timer k now s
  end.

Fixpoint run (es : list Event) (s : Mock) : option Mock :=
  match es with
  | [] => Some s
  | e :: es' => s' ← step e s; run es' s'
  end.

Definition reachable (s : Mock) : Prop := ∃ es, run es initial = Some s.

(** What the JavaScript store guarantees by construction: [mockTasks] holds
    each object once, and every reference, in the array or in a pending
    closure, points to an object. *)
Definition wf (s : Mock) : Prop :=
  NoDup (mockTasks s)
  ∧ Forall (λ l, is_Some (heap s !! l)) (mockTasks s)
  ∧ Forall (λ d, is_Some (heap s !! d.2)) (timers s).

(** An identity is unknown to the registry when no listed task carries it. *)
Definition unknown (taskId : string) (s : Mock) : Prop :=
  ∀ t, t ∈ listed s → task_id t ≠ taskId.

(** ** The hooks *)

Section Hooks.

(** The built-in [new Date(v)]: the time value of the new Date, [None] for
    the Invalid Date.  (ISO-8601 parsing belongs to the runtime.) *)
Variable new_Date : JsVal → option Z.

(** [v ? new Date(v) : undefined] *)
Definition date_or_undefined (v : JsVal) : JsVal :=
  if truthy v then JDate (new_Date v) else JUndefined.

(** *** [useClaudeCode] *)

Record ClaudeCode := {
  cc_tasks : list JsVal;
  cc_loading : bool;
  cc_error : option string;
}.

Definition useClaudeCode0 : ClaudeCode :=
  {| cc_tasks := []; cc_loading := true; cc_error := None |}.

(** The mapping applied to a payload task, by [refreshTasks] and by
    [getTaskStatus]: it reads the snake_case names of the backend. *)
Definition map_task (task : JsVal) : Outcome JsVal :=
  id ← get_prop task "id";
  description ← get_prop task "description";
  status ← get_prop task "status";
  started_at ← get_prop task "started_at";
  completed_at ← get_prop task "completed_at";
  output ← get_prop task "output";
  working_directory ← get_prop task "working_directory";
  mret (JObj [("id", id); ("description", description); ("status", status);
              ("startedAt", date_or_undefined started_at);
              ("completedAt", date_or_undefined completed_at);
              ("output", output);
              ("workingDirectory", working_directory)]).

(** [refreshTasks]: every failure is caught and recorded in [error]. *)
Definition refreshTasks (tauri : Tauri) (now : Z) (w : ClaudeCode * Mock)
  : ClaudeCode * Mock :=
  let '(h, s) := w in
  let '(result, s') := invoke tauri ListClaudeTasks now s in
  match result ≫= js_map "result" map_task with
  | Resolved mappedTasks =>
      ({| cc_tasks := mappedTasks; cc_loading := false; cc_error := None |}, s')
  | Rejected err =>
      ({| cc_tasks := cc_tasks h; cc_loading := false;
          cc_error := Some (message_or "Failed to load Claude tasks" err) |}, s')
  end.

Definition set_error (e : option string) (h : ClaudeCode) : ClaudeCode :=
  {| cc_tasks := cc_tasks h; cc_loading := cc_loading h; cc_error := e |}.

(** [startTask]: the request goes to the backend as it is; then the list is
    refreshed.  [tauri] answers the first [invoke], [tauri'] the second. *)
Definition startTask (tauri tauri' : Tauri)
    (worktreeName workingDirectory description : string) (now : Z)
    (w : ClaudeCode * Mock) : Outcome JsVal * (ClaudeCode * Mock) :=
  let '(h, s) := w in
  let '(taskId, s') :=
    invoke tauri (StartClaudeTask worktreeName workingDirectory description) now s in
  match taskId with
  | Resolved taskId =>
      (Resolved taskId, refreshTasks tauri' now (set_error None h, s'))
  | Rejected err =>
      let errorMessage := message_or "Failed to start Claude task" err in
      (Rejected (JsError errorMessage), (set_error (Some errorMessage) h, s'))
  end.

Definition cancelTask (tauri tauri' : Tauri) (taskId : string) (now : Z)
    (w : ClaudeCode * Mock) : Outcome JsVal * (ClaudeCode * Mock) :=
  let '(h, s) := w in
  let '(r, s') := invoke tauri (CancelClaudeTask taskId) now s in
  match r with
  | Resolved _ =>
      (Resolved JUndefined, refreshTasks tauri' now (set_error None h, s'))
  | Rejected err =>
      let errorMessage := message_or "Failed to cancel task" err in
      (Rejected (JsError errorMessage), (set_error (Some errorMessage) h, s'))
  end.

Definition getTaskStatus (tauri : Tauri) (taskId : string) (now : Z) (s : Mock)
  : Outcome JsVal * Mock :=
  let '(result, s') := invoke tauri (GetClaudeTaskStatus taskId) now s in
  match result ≫= map_task with
  | Resolved task => (Resolved task, s')
  | Rejected err =>
      (Rejected (JsError (message_or "Failed to get task status" err)), s')
  end.

Definition cleanupCompletedTasks (tauri tauri' : Tauri) (now : Z)
    (w : ClaudeCode * Mock) : Outcome JsVal * (ClaudeCode * Mock) :=
  let '(h, s) := w in
  let '(cleanedCount, s') := invoke tauri CleanupCompletedClaudeTasks now s in
  match cleanedCount with
  | Resolved cleanedCount =>
      (Resolved cleanedCount, refreshTasks tauri' now (h, s'))
  | Rejected err =>
      (Rejected (JsError (message_or "Failed to cleanup tasks" err)), (h, s'))
  end.

(** *** [handleStartTask] of [WorktreeList]

    The only caller of [startTask].  [taskDescriptions] is a plain object,
    [{}] at first and rebuilt by [{ ...prev, [worktree.id]: text }]: its own
    properties are the descriptions typed so far, all strings, and
    [taskDescriptions[worktree.id]] is the own property of that name or, when
    there is none, what [Object.prototype] has under that name. *)

(** The names a plain object inherits from [Object.prototype].  Read from an
    object with no own property of that name, each of them gives a function
    ([__proto__] gives the prototype itself): a truthy value that is not a
    string. *)
Definition Object_prototype_names : list string :=
  ["constructor"; "__defineGetter__"; "__defineSetter__"; "hasOwnProperty";
   "__lookupGetter__"; "__lookupSetter__"; "isPrototypeOf";
   "propertyIsEnumerable"; "toString"; "valueOf"; "__proto__";
   "toLocaleString"].

(** What [taskDescriptions[key]] evaluates to. *)
Inductive Description :=
| D_string (description : string)   (* an own property *)
| D_inherited                       (* a member of [Object.prototype] *)
| D_undefined.

Definition read_description (taskDescriptions : gmap string string)
    (key : string) : Description :=
  match taskDescriptions !! key with
  | Some description => D_string description
  | None =>
      if bool_decide (key ∈ Object_prototype_names) then D_inherited
      else D_undefined
  end.

(** What a run of the handler did. *)
Inductive Handled :=
| Returned
    (* [if (!description) return]: no call, nothing changed *)
| Called (r : Outcome JsVal) (taskDescriptions : gmap string string)
         (w : ClaudeCode * Mock)
    (* [startTask] was called with the typed description and ended in [r],
       leaving the typed descriptions and the hook and mock as given *)
| CalledWithInherited (name : string).
    (* the guard let the member of [Object.prototype] called [name] through,
       and [startTask] was called with it as the description; that value is
       not a string, and the call is not followed any further here *)

(** The handler passes the name and the path of a listed worktree, and returns
    without calling when the description read for that worktree is falsy:
    [undefined] or the empty string.  A failure of [startTask] is caught and
    logged; after a success the typed description is reset. *)
Definition handleStartTask (tauri tauri' : Tauri)
    (taskDescriptions : gmap string string) (worktree : GitWorktree) (now : Z)
    (w : ClaudeCode * Mock) : Handled :=
  match read_description taskDescriptions (wt_id worktree) with
  | D_undefined => Returned
  | D_string description =>
      if bool_decide (description = "") then Returned
      else
        let '(r, w') :=
          startTask tauri tauri' (wt_name worktree) (wt_path worktree) description now w in
        Called r
          (if resolved r then <[wt_id worktree := ""]> taskDescriptions
           else taskDescriptions)
          w'
  | D_inherited => CalledWithInherited (wt_id worktree)
  end.

(** *** [useOverlapAnalysis] *)

(** [Object.entries(v)] *)
Definition Object_entries (v : JsVal) : Outcome (list (string * JsVal)) :=
  match v with
  | JUndefined | JNull =>
      Rejected (JsError "Cannot convert undefined or null to object")
  | JObj fs => Resolved fs
  | JArr xs => Resolved (imap (λ i x, (pretty i, x)) xs)
  | JStr s =>
      Resolved (imap (λ i c, (pretty i, JStr (String c EmptyString)))
                     (String.list_ascii_of_string s))
  | _ => Resolved []
  end.

Definition map_overlap (overlap : JsVal) : Outcome JsVal :=
  file_path ← get_prop overlap "file_path";
  worktrees ← get_prop overlap "worktrees";
  conflict_risk ← get_prop overlap "conflict_risk";
  last_modified ← get_prop overlap "last_modified";
  entries ← Object_entries last_modified;
  mret (JObj [("filePath", file_path); ("worktrees", worktrees);
              ("conflictRisk", conflict_risk);
              ("lastModified",
                JObj (prod_map (λ key, key) (λ value, JDate (new_Date value))
                        <$> entries))]).

Definition map_analysis (result : JsVal) : Outcome JsVal :=
  total_overlaps ← get_prop result "total_overlaps";
  file_overlaps ← get_prop result "file_overlaps";
  fileOverlaps ← js_map "result.file_overlaps" map_overlap file_overlaps;
  risk_assessment ← get_prop result "risk_assessment";
  low ← get_prop risk_assessment "low";
  medium ← get_prop risk_assessment "medium";
  high ← get_prop risk_assessment "high";
  recommendations ← get_prop result "recommendations";
  mret (JObj [("totalOverlaps", total_overlaps);
              ("fileOverlaps", JArr fileOverlaps);
              ("riskAssessment",
                JObj [("low", low); ("medium", medium); ("high", high)]);
              ("recommendations", recommendations)]).

Record UseOverlapAnalysis := {
  overlapAnalysis : option JsVal;
  oa_loading : bool;
  oa_error : option string;
}.

Definition analyzeOverlaps (tauri : Tauri) (repoPath : string) (now : Z)
    (w : UseOverlapAnalysis * Mock) : UseOverlapAnalysis * Mock :=
  let '(h, s) := w in
  let '(result, s') := invoke tauri (AnalyzeWorktreeOverlaps repoPath) now s in
  match result ≫= map_analysis with
  | Resolved mappedAnalysis =>
      ({| overlapAnalysis := Some mappedAnalysis; oa_loading := false;
          oa_error := None |}, s')
  | Rejected err =>
      ({| overlapAnalysis := overlapAnalysis h; oa_loading := false;
          oa_error := Some (message_or "Failed to analyze overlaps" err) |}, s')
  end.

End Hooks.

(** ** The polling effect of [useClaudeCode]

    [useEffect(() => { refreshTasks(); const interval = setInterval(refreshTasks, 5000);
                       return () => clearInterval(interval); }, [])]

    A call of [refreshTasks] is in flight from its start until its promise
    settles; how long that takes is decided by the backend (or by the mock's
    random delay), so settling is an event of its own. *)

Record Poller := {
  interval : option Z;     (* due time of the next tick; [None]: no interval registered *)
  in_flight : nat;         (* calls of [refreshTasks] not yet settled *)
  refreshes : list Z;      (* the times at which the effect called [refreshTasks] *)
}.

Definition poller0 : Poller :=
  {| interval := None; in_flight := 0; refreshes := [] |}.

Inductive PollEvent :=
| Mount (now : Z)     (* the effect runs *)
| Tick                (* the interval timer fires, at its due time *)
| Settle              (* a refresh in flight returns *)
| Unmount.            (* the cleanup of the effect runs *)

Definition poll_step (e : PollEvent) (p : Poller) : option Poller :=
  match e with
  | Mount now =>
      match interval p with
      | None => Some {| interval := Some (now + 5000);
                        in_flight := S (in_flight p);
                        refreshes := refreshes p ++ [now] |}
      | Some _ => None
      end
  | Tick =>
      match interval p with
      | Some due => Some {| interval := Some (due + 5000);
                            in_flight := S (in_flight p);
                            refreshes := refreshes p ++ [due] |}
      | None => None
      end
  | Settle =>
      match in_flight p with
      | S n => Some {| interval := interval p; in_flight := n;
                       refreshes := refreshes p |}
      | O => None
      end
  | Unmount =>
      Some {| interval := None; in_flight := in_flight p;
              refreshes := refreshes p |}
  end.

Fixpoint poll_run (es : list PollEvent) (p : Poller) : option Poller :=
  match es with
  | [] => Some p
  | e :: es' => p' ← poll_step e p; poll_run es' p'
  end.

Definition is_tick (e : PollEvent) : bool :=
  match e with Tick => true | _ => false end.
Definition is_mount (e : PollEvent) : bool :=
  match e with Mount _ => true | _ => false end.

(** The ticks of a run: tick [i] is due [5000 * i] after the first one. *)
Definition tick_times (due : Z) (n : nat) : list Z :=
  (λ i : nat, due + 5000 * Z.of_nat i) <$> seq 0 n.

(** * Further code: the worktree hook, dependencies, the task list and the timeline *)

(** ** [useWorktrees] *)

Section WorktreeHooks.
Variable new_Date : JsVal → option Z.

Record UseWorktrees := {
  uw_worktrees : list JsVal;
  uw_loading : bool;
  uw_error : option string;
}.

(** The mapping of [refreshWorktrees]; the two dates are built
    unconditionally. *)
Definition map_worktree (wt : JsVal) : Outcome JsVal :=
  id ← get_prop wt "id";
  name ← get_prop wt "name";
  branch ← get_prop wt "branch";
  path ← get_prop wt "path";
  status ← get_prop wt "status";
  created_at ← get_prop wt "created_at";
  last_activity ← get_prop wt "last_activity";
  mret (JObj [("id", id); ("name", name); ("branch", branch); ("path", path);
              ("status", status);
              ("createdAt", JDate (new_Date created_at));
              ("lastActivity", JDate (new_Date last_activity))]).

Definition refreshWorktrees (tauri : Tauri) (repoPath : string) (now : Z)
    (w : UseWorktrees * Mock) : UseWorktrees * Mock :=
  let '(h, s) := w in
  let '(result, s') := invoke tauri (ListWorktrees repoPath) now s in
  match result ≫= js_map "result" map_worktree with
  | Resolved mappedWorktrees =>
      ({| uw_worktrees := mappedWorktrees; uw_loading := false; uw_error := None |}, s')
  | Rejected err =>
      ({| uw_worktrees := uw_worktrees h; uw_loading := false;
          uw_error := Some (message_or "Failed to load worktrees" err) |}, s')
  end.

Definition uw_set_error (e : option string) (h : UseWorktrees) : UseWorktrees :=
  {| uw_worktrees := uw_worktrees h; uw_loading := uw_loading h; uw_error := e |}.

Definition createWorktree (tauri tauri' : Tauri) (repoPath name branch : string)
    (now : Z) (w : UseWorktrees * Mock) : Outcome JsVal * (UseWorktrees * Mock) :=
  let '(h, s) := w in
  let '(r, s') := invoke tauri (CreateWorktree repoPath name branch) now s in
  match r with
  | Resolved _ =>
      (Resolved JUndefined, refreshWorktrees tauri' repoPath now (uw_set_error None h, s'))
  | Rejected err =>
      let errorMessage := message_or "Failed to create worktree" err in
      (Rejected (JsError errorMessage), (uw_set_error (Some errorMessage) h, s'))
  end.

Definition deleteWorktree (tauri tauri' : Tauri) (repoPath name : string)
    (now : Z) (w : UseWorktrees * Mock) : Outcome JsVal * (UseWorktrees * Mock) :=
  let '(h, s) := w in
  let '(r, s') := invoke tauri (DeleteWorktree repoPath name) now s in
  match r with
  | Resolved _ =>
      (Resolved JUndefined, refreshWorktrees tauri' repoPath now (uw_set_error None h, s'))
  | Rejected err =>
      let errorMessage := message_or "Failed to delete worktree" err in
      (Rejected (JsError errorMessage), (uw_set_error (Some errorMessage) h, s'))
  end.

End WorktreeHooks.

(** ** File names: [filePath.split('/').pop() || filePath] *)

(** [s.split('/')]: the segments between the separators, at least one. *)
Fixpoint js_split (sep : Ascii.ascii) (s : string) : list string :=
  match s with
  | EmptyString => [""]
  | String c s' =>
      if bool_decide (c = sep) then "" :: js_split sep s'
      else match js_split sep s' with
           | seg :: segs => String c seg :: segs
           | [] => [String c ""]
           end
  end.

(** [getFileName] of [OverlapMatrix]; the empty string is falsy. *)
Definition getFileName (filePath : string) : string :=
  match last (js_split "/"%char filePath) with
  | Some seg => if bool_decide (seg = "") then filePath else seg
  | None => filePath
  end.

(** ** [analyzeDependencies] of [useOverlapAnalysis] *)

(** [v.split('/').pop() || v], with [what] the source text of [v]. *)
Definition js_file_name (what : string) (v : JsVal) : Outcome JsVal :=
  match v with
  | JStr s => Resolved (JStr (getFileName s))
  | JUndefined =>
      Rejected (JsError "Cannot read properties of undefined (reading 'split')")
  | JNull =>
      Rejected (JsError "Cannot read properties of null (reading 'split')")
  | _ => Rejected (JsError (what +:+ ".split is not a function"))
  end.

Definition map_dependency (dep : JsVal) : Outcome JsVal :=
  file_path ← get_prop dep "file_path";
  name ← js_file_name "dep.file_path" file_path;
  dependencies ← get_prop dep "dependencies";
  dependents ← get_prop dep "dependents";
  impact_score ← get_prop dep "impact_score";
  mret (JObj [("id", file_path); ("name", name); ("type", JStr "file");
              ("path", file_path);
              ("dependencies", dependencies); ("dependents", dependents);
              ("impactScore", impact_score)]).

(** The hook's [dependencies] state is carried beside the rest of its
    state. *)
Definition analyzeDependencies (tauri : Tauri) (repoPath : string)
    (filePaths : list string) (now : Z)
    (w : list JsVal * UseOverlapAnalysis * Mock)
  : list JsVal * UseOverlapAnalysis * Mock :=
  let '(dependencies, h, s) := w in
  let '(result, s') := invoke tauri (AnalyzeFileDependencies repoPath filePaths) now s in
  match result ≫= js_map "result" map_dependency with
  | Resolved mappedDependencies =>
      (mappedDependencies,
       {| overlapAnalysis := overlapAnalysis h; oa_loading := false; oa_error := None |},
       s')
  | Rejected err =>
      (dependencies,
       {| overlapAnalysis := overlapAnalysis h; oa_loading := false;
          oa_error := Some (message_or "Failed to analyze dependencies" err) |},
       s')
  end.

(** ** [TaskMonitor] *)

(** [toggleTaskExpansion]: the updater builds a new set from [prev]. *)
Definition toggleTaskExpansion (taskId : string) (prev : gset string) : gset string :=
  if decide (taskId ∈ prev) then prev ∖ {[taskId]} else prev ∪ {[taskId]}.

(** The time value of a valid Date is a whole number of milliseconds of at
    most 8.64e15 either way: every such number is a double. *)
Definition valid_time (t : Z) : Prop :=
  -8640000000000000 ≤ t ≤ 8640000000000000.

(** [a.getTime() - b.getTime()], a subtraction of doubles, for two valid time
    values.  The exact difference is below [2^54] in size.  Up to [2^53] it is
    a double and the result is exact; beyond, the doubles are the even
    numbers, and an odd difference, half way between two of them, is rounded
    to the one with the even significand: the multiple of 4. *)
Definition double_sub (a b : Z) : Z :=
  let d := a - b in
  if bool_decide (Z.abs d ≤ 2 ^ 53) then d
  else if Z.even d then d
  else if bool_decide ((d + 1) `mod` 4 = 0) then d + 1
  else d - 1.

Arguments double_sub : simpl never.

(** [getDuration]: a date is [undefined] ([None]), or a Date whose time value
    is a number of milliseconds or [NaN] ([Some None], the Invalid Date).
    [now] is what [new Date()] reads.

    [Math.floor(diff / 1000)], [Math.floor(seconds / 60)] and
    [Math.floor(minutes / 60)] divide doubles: [diff] is a whole number below
    [2^54] in size, so each quotient is below [2^44], where doubles lie less
    than 1/500 apart, and is either whole or at least 1/1000 away from the
    next whole number; the rounded quotient has the floor of the exact one,
    which is what [`div`] gives. *)
Definition getDuration (startedAt completedAt : option (option Z)) (now : Z)
  : string :=
  match startedAt with
  | None => "N/A"
  | Some startedAt =>
      let end_ := default (Some now) completedAt in
      match end_, startedAt with
      | Some e, Some st =>
          let diff := double_sub e st in
          let seconds := diff `div` 1000 in
          let minutes := seconds `div` 60 in
          let hours := minutes `div` 60 in
          if bool_decide (0 < hours) then
            pretty hours +:+ "h " +:+ pretty (minutes `rem` 60) +:+ "m"
          else if bool_decide (0 < minutes) then
            pretty minutes +:+ "m " +:+ pretty (seconds `rem` 60) +:+ "s"
          else pretty seconds +:+ "s"
      | _, _ => "NaNs"
      end
  end.

(** [v.getTime()] for a value that should be a Date; [what] is the source
    text of [v]. *)
Definition js_getTime (what : string) (v : JsVal) : Outcome (option Z) :=
  match v with
  | JDate d => Resolved d
  | JUndefined =>
      Rejected (JsError "Cannot read properties of undefined (reading 'getTime')")
  | JNull =>
      Rejected (JsError "Cannot read properties of null (reading 'getTime')")
  | _ => Rejected (JsError (what +:+ ".getTime is not a function"))
  end.

(** [getDuration(task.startedAt, task.completedAt)] as the list renders it,
    on a task as the hook holds it. *)
Definition task_duration (task : JsVal) (now : Z) : Outcome string :=
  startedAt ← get_prop task "startedAt";
  completedAt ← get_prop task "completedAt";
  if truthy startedAt then
    e ← js_getTime "end" (if truthy completedAt then completedAt else JDate (Some now));
    st ← js_getTime "startedAt" startedAt;
    mret (getDuration (Some st) (Some e) now)
  else mret "N/A".

(** ** [TimelineVisualization] *)

Inductive NodeWorktree := nw_frontend | nw_backend | nw_shared.
Inductive CommitWorktree := cw_frontend | cw_backend.

Record CommitNode := {
  node_id : string;
  node_name : string;
  node_filePath : string;
  node_worktree : NodeWorktree;
  node_lastCommit : Z;
  node_dependencies : list string;
  node_x : option Q;
  node_y : option Q;
}.

Record Commit := {
  commit_id : string;
  commit_message : string;
  commit_timestamp : Z;
  commit_worktree : CommitWorktree;
  commit_files : list string;
  commit_author : string;
}.

(** [getLinks]: one link per dependency, node by node. *)
Definition getLinks (nodes : list CommitNode) : list (string * string) :=
  nodes ≫= λ node, (λ depId, (node_id node, depId)) <$> node_dependencies node.

(** [nodes.find(node => node.filePath === filePath)?.id] *)
Definition node_id_of (nodes : list CommitNode) (filePath : string) : option string :=
  node_id <$> (snd <$> list_find (λ node, node_filePath node = filePath) nodes).

(** [getActiveNodes]: [filter(Boolean)] drops [undefined] and the empty
    string. *)
Definition getActiveNodes (currentCommit : option Commit) (nodes : list CommitNode)
  : list string :=
  match currentCommit with
  | None => []
  | Some currentCommit =>
      omap (λ filePath,
              match node_id_of nodes filePath with
              | Some i => if bool_decide (i = "") then None else Some i
              | None => None
              end)
           (commit_files currentCommit)
  end.

(** Playback: while [isPlaying], an interval of 2000 ms advances
    [currentCommitIndex], and stops at the last commit. *)
Record Playback := {
  currentCommitIndex : Z;
  isPlaying : bool;
}.

(** One tick of the interval; there is no interval when not playing. *)
Definition playback_tick (commits_length : nat) (p : Playback) : option Playback :=
  if isPlaying p then
    if bool_decide (Z.of_nat commits_length - 1 ≤ currentCommitIndex p) then
      Some {| currentCommitIndex := currentCommitIndex p; isPlaying := false |}
    else
      Some {| currentCommitIndex := currentCommitIndex p + 1; isPlaying := true |}
  else None.

Fixpoint playback_ticks (commits_length : nat) (k : nat) (p : Playback)
  : option Playback :=
  match k with
  | O => Some p
  | S k' => p' ← playback_tick commits_length p; playback_ticks commits_length k' p'
  end.

(** [commits[currentCommitIndex]] *)
Definition currentCommit (commits : list Commit) (p : Playback) : option Commit :=
  if bool_decide (0 ≤ currentCommitIndex p) then
    commits !! Z.to_nat (currentCommitIndex p)
  else None.

(** ** Predicates on task objects used by the invariants below *)

(** What every task object satisfies in the states the mock can reach. *)
Definition task_ok (t : ClaudeTask) : Prop :=
  status t ≠ pending
  ∧ is_Some (startedAt t)
  ∧ (completedAt t = None ↔ status t = running)
  ∧ output t ≠ [].

(** [t'] is a later state of the object [t]: same identity, description,
    start time and working directory, and an output that continues [t]'s. *)
Definition later_of (t t' : ClaudeTask) : Prop :=
  task_id t' = task_id t
  ∧ description t' = description t
  ∧ startedAt t' = startedAt t
  ∧ workingDirectory t' = workingDirectory t
  ∧ output t `prefix_of` output t'.

(** The commands that write to [mockWorktrees]. *)
Definition worktree_command (c : Command) : bool :=
  match c with
  | CreateWorktree _ _ _ | DeleteWorktree _ _ => true
  | _ => false
  end.

(** The characters of a string do not include the path separator. *)
Definition no_slash (s : string) : Prop :=
  "/"%char ∉ String.list_ascii_of_string s.

(** * Properties *)

(** ** Looking a task up by identity *)

Lemma find_task_Some h ls taskId l :
  find_task h ls taskId = Some l →
  l ∈ ls ∧ ∃ t, h !! l = Some t ∧ task_id t = taskId.
Proof.
  induction ls as [|l' ls IH]; simpl; [done|].
  destruct (h !! l') as [t|] eqn:Hl'.
  - case_bool_decide as Hid.
    + intros [= <-]. split; [left|eauto].
    + intros [??]%IH. split; [by right|done].
  - intros [??]%IH. split; [by right|done].
Qed.

Lemma find_task_None h ls taskId :
  find_task h ls taskId = None ↔
  ∀ t, t ∈ omap (λ l, h !! l) ls → task_id t ≠ taskId.
Proof.
  induction ls as [|l' ls IH]; simpl.
  - split; [|done]. intros _ t Ht. by apply elem_of_nil in Ht.
  - destruct (h !! l') as [t'|] eqn:Hl'; [|done].
    case_bool_decide as Hid.
    + split; [done|]. intros H. destruct (H t'); [left|done].
    + rewrite IH. split.
      * intros H t [->|Ht]%elem_of_cons; auto.
      * intros H t Ht. apply H. by right.
Qed.

(** ** The cleanup loop *)

Lemma cleanup_loop_take_drop h o n ls :
  (n ≤ length ls)%nat →
  cleanup_loop h o n ls
  = filter (λ l, ¬ stale_at h o l) (take n ls) ++ drop n ls.
Proof.
  revert ls. induction n as [|i IH]; intros ls Hn; simpl.
  - done.
  - destruct (lookup_lt_is_Some_2 ls i) as [l Hl]; [lia|].
    assert (length (take i ls) = i) as Hlen by (rewrite length_take; lia).
    rewrite Hl, (take_S_r _ _ _ Hl), filter_app.
    destruct (stale_at h o l) eqn:Hs.
    + rewrite IH by (rewrite length_delete by eauto; lia).
      rewrite delete_take_drop.
      rewrite take_app_length', drop_app_length' by done.
      rewrite filter_cons_False, filter_nil, app_nil_r; [done|].
      rewrite Hs. by intros [].
    + rewrite IH by lia.
      rewrite filter_cons_True by (rewrite Hs; by intros []).
      rewrite filter_nil, <-app_assoc. simpl.
      by rewrite (drop_S _ _ _ Hl).
Qed.

Lemma cleanup_loop_filter h o ls :
  cleanup_loop h o (length ls) ls = filter (λ l, ¬ stale_at h o l) ls.
Proof.
  rewrite cleanup_loop_take_drop by done.
  by rewrite firstn_all, drop_all, app_nil_r.
Qed.

Lemma stale_spec o t :
  stale o t ↔ status t = completed ∧ ∃ c, completedAt t = Some c ∧ c < o.
Proof.
  unfold stale. rewrite andb_True, bool_decide_spec.
  destruct (completedAt t) as [c|].
  - rewrite bool_decide_spec. split.
    + intros [? ?]. eauto.
    + intros [? (c' & [= <-] & ?)]. done.
  - split; [by intros [_ []]|]. by intros [_ (c & [=] & _)].
Qed.

Lemma omap_cons_eq {A B} (f : A → option B) (x : A) (l : list A) :
  omap f (x :: l) = match f x with Some y => y :: omap f l | None => omap f l end.
Proof. done. Qed.

Lemma omap_filter_stale (h : gmap loc ClaudeTask) o (ls : list loc) :
  omap (λ l, h !! l) (filter (λ l, ¬ stale_at h o l) ls)
  = filter (λ t, ¬ stale o t) (omap (λ l, h !! l) ls).
Proof.
  induction ls as [|l ls IH]; [done|].
  rewrite filter_cons.
  destruct (decide (¬ stale_at h o l)) as [Hd|Hd]; unfold stale_at in Hd;
    rewrite !omap_cons_eq; destruct (h !! l) as [t|] eqn:Hl.
  - by rewrite filter_cons_True, IH.
  - done.
  - by rewrite filter_cons_False.
  - destruct Hd. by intros [].
Qed.

Lemma length_filter_split {A} (P : A → Prop) `{!∀ x, Decision (P x)} (l : list A) :
  (length (filter P l) + length (filter (λ x, ¬ P x) l) = length l)%nat.
Proof.
  induction l as [|x l IH]; [done|].
  rewrite !filter_cons. destruct (decide (P x)), (decide (¬ P x)); simpl; try lia.
  all: tauto.
Qed.

Lemma length_omap_filter_stale (h : gmap loc ClaudeTask) o (ls : list loc) :
  length (filter (λ l, stale_at h o l) ls)
  = length (filter (λ t, stale o t) (omap (λ l, h !! l) ls)).
Proof.
  induction ls as [|l ls IH]; [done|].
  rewrite filter_cons.
  destruct (decide (stale_at h o l)) as [Hd|Hd]; unfold stale_at in Hd;
    rewrite !omap_cons_eq; destruct (h !! l) as [t|] eqn:Hl.
  - rewrite filter_cons_True by done. simpl. by rewrite IH.
  - by destruct Hd.
  - by rewrite filter_cons_False.
  - done.
Qed.

Lemma filter_stale_idemp (h : gmap loc ClaudeTask) o (ls : list loc) :
  filter (λ l, ¬ stale_at h o l) (filter (λ l, ¬ stale_at h o l) ls)
  = filter (λ l, ¬ stale_at h o l) ls.
Proof.
  induction ls as [|l ls IH]; [done|].
  rewrite filter_cons. destruct (decide _); [|done].
  rewrite filter_cons, decide_True by done. by rewrite IH.
Qed.

Lemma filter_stale_later (h : gmap loc ClaudeTask) o' o (ls : list loc) :
  (∀ l t, l ∈ ls → h !! l = Some t → stale o' t → stale o t) →
  filter (λ l, ¬ stale_at h o' l) (filter (λ l, ¬ stale_at h o l) ls)
  = filter (λ l, ¬ stale_at h o l) ls.
Proof.
  intros Himp. induction ls as [|l ls IH]; [done|].
  rewrite filter_cons. destruct (decide _) as [Hl|Hl].
  - rewrite filter_cons_True, IH; [done| |].
    + intros l' t ?. apply Himp. by right.
    + intros Hs. apply Hl. unfold stale_at in *.
      destruct (h !! l) as [t|] eqn:Ht; [|done]. eapply Himp; [left|done..].
  - apply IH. intros l' t ?. apply Himp. by right.
Qed.

Lemma cleanup_eq now s :
  cleanup_completed_claude_tasks now s
  = (Z.of_nat (length (mockTasks s))
     - Z.of_nat (length (filter (λ l, ¬ stale_at (heap s) (now - 3600000) l) (mockTasks s))),
     {| heap := heap s; mockWorktrees := mockWorktrees s;
        mockTasks := filter (λ l, ¬ stale_at (heap s) (now - 3600000) l) (mockTasks s);
        timers := timers s |}).
Proof.
  unfold cleanup_completed_claude_tasks.
  replace (now - 60 * 60 * 1000) with (now - 3600000) by lia.
  by rewrite cleanup_loop_filter.
Qed.

(** C3: [cleanup_completed_claude_tasks], called when the clock reads [now],
    removes exactly the tasks whose status is [completed] and whose
    [completedAt] lies more than one hour (3600000 ms) before [now], keeping
    the others in their order and untouched; the number it returns is the
    number of tasks removed; every task that is not [completed] (so every
    [pending], [running] and [failed] one) stays; and a second call at the
    same call time returns 0, as does a second call at any time by which no
    remaining task has come to lie more than one hour back. *)
Theorem C3_cleanup_removes_exactly_stale (now : Z) (s : Mock) :
  let count := (cleanup_completed_claude_tasks now s).1 in
  let s' := (cleanup_completed_claude_tasks now s).2 in
  (∀ t, stale (now - 3600000) t ↔
        status t = completed ∧ ∃ c, completedAt t = Some c ∧ 3600000 < now - c)
  ∧ mockTasks s' = filter (λ l, ¬ stale_at (heap s) (now - 3600000) l) (mockTasks s)
  ∧ heap s' = heap s
  ∧ listed s' = filter (λ t, ¬ stale (now - 3600000) t) (listed s)
  ∧ count = Z.of_nat (length (filter (λ t, stale (now - 3600000) t) (listed s)))
  ∧ (∀ t, t ∈ listed s → status t ≠ completed → t ∈ listed s')
  ∧ (cleanup_completed_claude_tasks now s').1 = 0
  ∧ (∀ now',
       (∀ t, t ∈ listed s → stale (now' - 3600000) t → stale (now - 3600000) t) →
       (cleanup_completed_claude_tasks now' s').1 = 0)
  ∧ invoke NoTauri CleanupCompletedClaudeTasks now s = (Resolved (JInt count), s').
Proof.
  rewrite cleanup_eq. cbn [fst snd mockTasks heap].
  unfold listed, task_at. cbn [mockTasks heap].
  split_and!.
  - intros t. rewrite stale_spec.
    split; intros [? (c & ? & ?)]; (split; [done|exists c; split; [done|lia]]).
  - done.
  - done.
  - apply omap_filter_stale.
  - rewrite <-length_omap_filter_stale.
    pose proof (length_filter_split (λ l, stale_at (heap s) (now - 3600000) l)
                  (mockTasks s)). lia.
  - intros t Ht Hst. rewrite omap_filter_stale. apply list_elem_of_filter.
    split; [|done]. rewrite stale_spec. by intros [? _].
  - rewrite cleanup_eq. cbn [fst mockTasks heap].
    rewrite filter_stale_idemp. lia.
  - intros now' Hnone. rewrite cleanup_eq. cbn [fst mockTasks heap].
    rewrite (filter_stale_later _ _ (now - 3600000)); [lia|].
    intros l t Hl Ht. apply Hnone. apply list_elem_of_omap. eauto.
  - unfold invoke, mock. by rewrite cleanup_eq.
Qed.

Lemma C3_cleanup_removes_exactly_stale_witness :
  mockTask1 ∈ listed (cleanup_completed_claude_tasks 1704114000000 initial).2.
Proof.
  apply (proj1 (proj2 (proj2 (proj2 (proj2 (proj2
           (C3_cleanup_removes_exactly_stale 1704114000000 initial))))))).
  - replace (listed initial) with [mockTask1; mockTask2] by (by vm_compute). left.
  - simpl. discriminate.
Defined.

(** ** Which steps write to a task object *)

Lemma fresh_heap_None (h : gmap loc ClaudeTask) : h !! fresh (dom h) = None.
Proof. apply not_elem_of_dom, is_fresh. Qed.

Lemma start_heap_preserved wd desc now s l t :
  heap s !! l = Some t →
  heap (start_claude_task wd desc now s).2 !! l = Some t.
Proof.
  intros Hl. simpl. rewrite lookup_insert_ne; [done|].
  intros <-. pose proof (is_fresh (dom (heap s))) as Hf.
  apply Hf, elem_of_dom. eauto.
Qed.

Lemma mock_heap_preserved c now s l t :
  (∀ taskId, c ≠ CancelClaudeTask taskId) →
  heap s !! l = Some t →
  heap (mock c now s).2 !! l = Some t.
Proof.
  intros Hc Hl. destruct c; simpl; try done.
  - unfold delete_worktree. by destruct (findIndex_name _ _).
  - by apply start_heap_preserved.
  - by destruct (Hc taskId).
Qed.

Lemma invoke_heap_preserved tauri c now s l t :
  (∀ taskId, c ≠ CancelClaudeTask taskId) →
  heap s !! l = Some t →
  heap (invoke tauri c now s).2 !! l = Some t.
Proof.
  intros Hc Hl. destruct tauri; simpl; auto using mock_heap_preserved.
Qed.

Lemma run_timer_Some k now s s' :
  run_timer k now s = Some s' →
  ∃ due l, timers s !! k = Some (due, l) ∧ due ≤ now
    ∧ s' = {| heap := alter (complete_task now) l (heap s);
              mockWorktrees := mockWorktrees s;
              mockTasks := mockTasks s;
              timers := delete k (timers s) |}.
Proof.
  unfold run_timer. destruct (timers s !! k) as [[due l]|]; [|done].
  case_bool_decide; [|done]. intros [= <-]. eauto.
Qed.

(** C1 (as the code has it): a task object is written to by exactly two
    steps.  [cancel_claude_task] sets the first task carrying the identity to
    [failed], sets [completedAt] to the call time and appends the marker
    "Task cancelled by user", whatever the status was (so also when it was
    [running]), and touches nothing else.  The completion timer sets the task
    its closure captured to [completed], whatever the status was.  Every other
    command, and every command the backend answers, leaves every task object
    as it is. *)
Theorem C1_status_written_by_cancel_and_timer_only (s : Mock) :
  (∀ taskId now l t,
     find_task (heap s) (mockTasks s) taskId = Some l →
     heap s !! l = Some t →
     let s' := cancel_claude_task taskId now s in
     heap s' !! l = Some (cancel_task now t)
     ∧ status (cancel_task now t) = failed
     ∧ completedAt (cancel_task now t) = Some now
     ∧ output (cancel_task now t) = output t ++ ["Task cancelled by user"]
     ∧ (∀ l', l' ≠ l → heap s' !! l' = heap s !! l')
     ∧ mockTasks s' = mockTasks s
     ∧ invoke NoTauri (CancelClaudeTask taskId) now s = (Resolved JUndefined, s'))
  ∧ (∀ k now s',
       run_timer k now s = Some s' →
       ∃ due l, timers s !! k = Some (due, l) ∧ due ≤ now
         ∧ heap s' !! l = complete_task now <$> heap s !! l
         ∧ (∀ l', l' ≠ l → heap s' !! l' = heap s !! l')
         ∧ mockTasks s' = mockTasks s)
  ∧ (∀ tauri c now l t,
       (∀ taskId, c ≠ CancelClaudeTask taskId) →
       heap s !! l = Some t →
       heap (invoke tauri c now s).2 !! l = Some t).
Proof.
  split_and!.
  - intros taskId now l t Hf Hl. unfold cancel_claude_task. rewrite Hf. simpl.
    split_and!; try done.
    + by rewrite lookup_alter_eq, Hl.
    + intros l' Hne. by rewrite lookup_alter_ne.
    + unfold cancel_claude_task. by rewrite Hf.
  - intros k now s' (due & l & Hk & Hdue & ->)%run_timer_Some.
    exists due, l. simpl. split_and!; try done.
    + by rewrite lookup_alter_eq.
    + intros l' Hne. by rewrite lookup_alter_ne.
  - intros. by apply invoke_heap_preserved.
Qed.

Lemma C1_status_written_by_cancel_and_timer_only_witness :
  heap (cancel_claude_task "task-1" 1704114000000 initial) !! 0%nat
  = Some (cancel_task 1704114000000 mockTask1).
Proof.
  apply (proj1 (C1_status_written_by_cancel_and_timer_only initial)
           "task-1" 1704114000000 0%nat mockTask1); reflexivity.
Defined.

(** C1 (as stated) fails: [task-2] of the initial registry is [completed];
    cancelling it turns it into [failed], with a new [completedAt] and the
    marker appended. *)
Lemma C1_cancel_rewrites_completed_task :
  status <$> get_claude_task_status "task-2" initial = Some completed
  ∧ ∃ s', run [Call NoTauri (CancelClaudeTask "task-2") 1704114000000] initial = Some s'
    ∧ get_claude_task_status "task-2" s'
      = Some {| task_id := "task-2";
                description := "Add JWT authentication endpoints";
                status := failed;
                startedAt := Some 1704105000000;
                completedAt := Some 1704114000000;
                output := ["Task completed successfully"; "Added /auth/login endpoint";
                           "Added /auth/refresh endpoint"; "Updated user types";
                           "Task cancelled by user"];
                workingDirectory := "/tmp/backend-api" |}.
Proof.
  split; [reflexivity|]. eexists. split; [reflexivity|]. vm_compute. reflexivity.
Qed.

(** The timer also fires on a task that was cancelled in the meantime: the
    task goes from [failed] to [completed]. *)
Lemma timer_completes_cancelled_task :
  ∃ s', run [Call NoTauri (StartClaudeTask "frontend-feature" "/tmp/frontend-feature" "x")
               1704114000000;
             Call NoTauri (CancelClaudeTask "task-1704114000000") 1704114002000;
             Timeout 0 1704114005000] initial = Some s'
    ∧ (status <$> get_claude_task_status "task-1704114000000" s') = Some completed
    ∧ (output <$> get_claude_task_status "task-1704114000000" s')
      = Some ["Task started..."; "Analyzing codebase..."; "Task cancelled by user";
              "Task completed successfully!"].
Proof. eexists. split; [reflexivity|]. vm_compute. done. Qed.

(** ** Reachable states are well formed *)

Lemma wf_initial : wf initial.
Proof.
  split_and!.
  - apply (bool_decide_unpack _). by vm_compute.
  - repeat (apply Forall_cons_2; [eexists; by vm_compute|]). apply Forall_nil_2.
  - apply Forall_nil_2.
Qed.

Lemma wf_start wd desc now s : wf s → wf (start_claude_task wd desc now s).2.
Proof.
  intros (Hnd & Hts & Htm). simpl.
  assert (∀ l, is_Some (heap s !! l) →
               is_Some (<[fresh (dom (heap s)):=new_task wd desc now]> (heap s) !! l))
    as Hmono.
  { intros l Hl. rewrite lookup_insert_is_Some. destruct (decide (fresh (dom (heap s)) = l)); auto. }
  split_and!.
  - apply NoDup_app. split_and!; [done| |apply NoDup_singleton].
    intros l Hl ->%list_elem_of_singleton.
    rewrite Forall_forall in Hts. apply Hts in Hl.
    rewrite fresh_heap_None in Hl. by destruct Hl.
  - apply Forall_app. split.
    + eapply Forall_impl; [done|]. auto.
    + constructor; [|constructor]. simpl. by rewrite lookup_insert_eq.
  - apply Forall_app. split.
    + eapply Forall_impl; [done|]. intros d. apply Hmono.
    + constructor; [|constructor]. simpl. by rewrite lookup_insert_eq.
Qed.

Lemma wf_alter f l s mw tm :
  wf s →
  Forall (λ d, is_Some (heap s !! d.2)) tm →
  wf {| heap := alter f l (heap s); mockWorktrees := mw;
        mockTasks := mockTasks s; timers := tm |}.
Proof.
  intros (Hnd & Hts & _) Htm.
  assert (∀ l', is_Some (heap s !! l') → is_Some (alter f l (heap s) !! l')) as Hmono.
  { intros l' Hl'. rewrite lookup_alter_is_Some. done. }
  split_and!; simpl; [done| |].
  - eapply Forall_impl; [done|]. auto.
  - eapply Forall_impl; [done|]. intros d. apply Hmono.
Qed.

Lemma wf_mock c now s : wf s → wf (mock c now s).2.
Proof.
  intros Hwf. destruct c; try (simpl; done).
  - simpl. unfold delete_worktree. by destruct (findIndex_name _ _).
  - by apply wf_start.
  - simpl. unfold cancel_claude_task. destruct (find_task _ _ _); [|done].
    apply wf_alter; [done|apply Hwf].
  - change (wf (cleanup_completed_claude_tasks now s).2).
    rewrite cleanup_eq. destruct Hwf as (Hnd & Hts & Htm). split_and!; simpl.
    + by apply NoDup_filter.
    + rewrite Forall_forall in Hts |- *.
      intros l [_ Hl]%list_elem_of_filter. auto.
    + done.
Qed.

Lemma wf_step e s s' : wf s → step e s = Some s' → wf s'.
Proof.
  intros Hwf. destruct e as [tauri c now|k now]; simpl.
  - intros [= <-]. destruct tauri; simpl; auto using wf_mock.
  - intros (due & l & Hk & _ & ->)%run_timer_Some.
    apply wf_alter; [done|]. destruct Hwf as (_ & _ & Htm).
    rewrite delete_take_drop. apply Forall_app. split.
    + by apply Forall_take.
    + by apply Forall_drop.
Qed.

Lemma wf_reachable s : reachable s → wf s.
Proof.
  intros [es Hrun]. revert Hrun. generalize wf_initial. generalize initial.
  induction es as [|e es IH]; intros s0 Hwf; simpl.
  - by intros [= <-].
  - destruct (step e s0) as [s1|] eqn:Hstep; simpl; [|done].
    apply IH. by eapply wf_step.
Qed.

(** In a reachable state the listing shows every entry of [mockTasks]. *)
Lemma listed_length s : reachable s → length (listed s) = length (mockTasks s).
Proof.
  intros (_ & Hts & _)%wf_reachable. unfold listed, task_at.
  induction Hts as [|l ls [t Hl] _ IH]; [done|].
  rewrite omap_cons_eq, Hl. simpl. by rewrite IH.
Qed.

(** ** Unknown task identities *)

Lemma unknown_find taskId s :
  unknown taskId s ↔ find_task (heap s) (mockTasks s) taskId = None.
Proof. symmetry. apply find_task_None. Qed.

Lemma mock_or_failed_backend tauri c now s :
  (∀ result, tauri ≠ TauriResolves result) →
  invoke tauri c now s = mock c now s.
Proof. intros H. destruct tauri; try done. by destruct (H result). Qed.

Lemma refreshTasks_mock_state new_Date tauri now h s :
  (refreshTasks new_Date tauri now (h, s)).2 = s.
Proof.
  unfold refreshTasks.
  destruct tauri; simpl; by case_match.
Qed.

Section Unknown.
Variable new_Date : JsVal → option Z.

(** C2 (as the code has it): for an identity carried by no task of the
    registry, when the mock answers (web mode, or the backend call failed),
    the command [get_claude_task_status] succeeds with [undefined]; the hook
    [getTaskStatus] then fails while reading [id] from it, so its error
    carries the runtime's message and not a not-found kind; the command
    [cancel_claude_task] and the hook [cancelTask] succeed and leave the mock
    state as it was. *)
Theorem C2_unknown_identity (tauri tauri' : Tauri) (taskId : string) (now : Z)
    (h : ClaudeCode) (s : Mock) :
  (∀ result, tauri ≠ TauriResolves result) →
  unknown taskId s →
  invoke tauri (GetClaudeTaskStatus taskId) now s = (Resolved JUndefined, s)
  ∧ getTaskStatus new_Date tauri taskId now s
    = (Rejected (JsError "Cannot read properties of undefined (reading 'id')"), s)
  ∧ invoke tauri (CancelClaudeTask taskId) now s = (Resolved JUndefined, s)
  ∧ (cancelTask new_Date tauri tauri' taskId now (h, s)).1 = Resolved JUndefined
  ∧ (cancelTask new_Date tauri tauri' taskId now (h, s)).2.2 = s.
Proof.
  intros Htauri Hunk%unknown_find.
  assert (invoke tauri (GetClaudeTaskStatus taskId) now s = (Resolved JUndefined, s))
    as Hget.
  { rewrite mock_or_failed_backend by done. simpl.
    unfold get_claude_task_status. by rewrite Hunk. }
  assert (invoke tauri (CancelClaudeTask taskId) now s = (Resolved JUndefined, s))
    as Hcancel.
  { rewrite mock_or_failed_backend by done. simpl.
    unfold cancel_claude_task. by rewrite Hunk. }
  split_and!; try done.
  - unfold getTaskStatus. by rewrite Hget.
  - unfold cancelTask. rewrite Hcancel. by destruct (refreshTasks _ _ _ _).
  - unfold cancelTask. rewrite Hcancel.
    pose proof (refreshTasks_mock_state new_Date tauri' now (set_error None h) s).
    by destruct (refreshTasks _ _ _ _).
Qed.

End Unknown.

Lemma C2_unknown_identity_witness :
  getTaskStatus (λ _, None) NoTauri "task-3" 0 initial
  = (Rejected (JsError "Cannot read properties of undefined (reading 'id')"), initial).
Proof.
  refine (proj1 (proj2 (C2_unknown_identity (λ _, None) NoTauri NoTauri "task-3" 0
                          useClaudeCode0 initial _ _))).
  - intros result. discriminate.
  - apply unknown_find. reflexivity.
Defined.

(** C2 (as stated) fails for [cancelTask]: on an identity the registry does
    not hold it succeeds, with no error recorded and the registry as before. *)
Lemma C2_cancel_unknown_succeeds :
  get_claude_task_status "task-3" initial = None
  ∧ invoke NoTauri (CancelClaudeTask "task-3") 0 initial = (Resolved JUndefined, initial)
  ∧ (cancelTask (λ _, None) NoTauri NoTauri "task-3" 0 (useClaudeCode0, initial)).1
    = Resolved JUndefined
  ∧ cc_error (cancelTask (λ _, None) NoTauri NoTauri "task-3" 0 (useClaudeCode0, initial)).2.1
    = None
  ∧ (cancelTask (λ _, None) NoTauri NoTauri "task-3" 0 (useClaudeCode0, initial)).2.2
    = initial.
Proof. split_and!; reflexivity. Qed.

(** ** Overlap analysis *)

(** C4 (as the code has it): [analyze_worktree_overlaps], when the mock
    answers it (web mode, or a failed backend call), is a constant: it leaves
    the mock state unchanged and returns the fixed [mockOverlapAnalysis]
    (two overlaps, three recommendations) for every repository path, clock
    reading and state, whatever worktrees the state holds. *)
Theorem C4_mock_analysis_is_constant (repoPath : string) (now : Z) (s : Mock)
    (e : Thrown) :
  invoke NoTauri (AnalyzeWorktreeOverlaps repoPath) now s
  = (Resolved (OverlapAnalysis_js mockOverlapAnalysis), s)
  ∧ invoke (TauriRejects e) (AnalyzeWorktreeOverlaps repoPath) now s
    = (Resolved (OverlapAnalysis_js mockOverlapAnalysis), s)
  ∧ get_prop (OverlapAnalysis_js mockOverlapAnalysis) "totalOverlaps"
    = Resolved (JInt 2)
  ∧ length (fileOverlaps mockOverlapAnalysis) = 2%nat
  ∧ length (recommendations mockOverlapAnalysis) = 3%nat.
Proof. split_and!; reflexivity. Qed.

(** C4 (as stated) fails: with both worktrees deleted the snapshot has no
    worktree, and the analysis still reports two overlaps and three
    recommendations. *)
Lemma C4_zero_worktrees_two_overlaps :
  ∃ s, run [Call NoTauri (DeleteWorktree "/repo" "frontend-feature") 1704114000000;
            Call NoTauri (DeleteWorktree "/repo" "backend-api") 1704114001000]
           initial = Some s
    ∧ mockWorktrees s = []
    ∧ ∃ analysis,
        invoke NoTauri (AnalyzeWorktreeOverlaps "/repo") 1704114002000 s
        = (Resolved analysis, s)
        ∧ get_prop analysis "totalOverlaps" = Resolved (JInt 2)
        ∧ get_prop analysis "recommendations"
          = Resolved (strings_js (recommendations mockOverlapAnalysis))
        ∧ length (recommendations mockOverlapAnalysis) = 3%nat.
Proof.
  eexists. split; [reflexivity|]. split; [reflexivity|].
  eexists. split; [reflexivity|]. split_and!; reflexivity.
Qed.

Lemma mapM_Resolved {A B} (f : A → Outcome B) (xs : list A) (ys : list B) :
  mapM f xs = Resolved ys → Forall2 (λ x y, f x = Resolved y) xs ys.
Proof.
  revert ys. induction xs as [|x xs IH]; intros ys; simpl.
  - intros [= <-]. constructor.
  - destruct (f x) as [y|] eqn:Hx; simpl; [|done].
    destruct (mapM f xs) as [ys'|]; simpl; [|done].
    intros [= <-]. constructor; auto.
Qed.

Lemma map_overlap_worktrees new_Date overlap mapped :
  map_overlap new_Date overlap = Resolved mapped →
  get_prop mapped "worktrees" = get_prop overlap "worktrees".
Proof.
  unfold map_overlap.
  destruct (get_prop overlap "file_path") as [file_path|]; simpl; [|done].
  destruct (get_prop overlap "worktrees") as [wts|]; simpl; [|done].
  destruct (get_prop overlap "conflict_risk") as [risk|]; simpl; [|done].
  destruct (get_prop overlap "last_modified") as [lm|]; simpl; [|done].
  destruct (Object_entries lm) as [entries|]; simpl; [|done].
  by intros [= <-].
Qed.

(** C5 (as the code has it): every FileOverlap of the analysis the mock
    produces lists two distinct worktree names, the very worktrees recorded as
    having modified the file, so no record of the mock stands for a file
    modified by exactly one worktree.  Of a payload the backend answers with,
    the hook checks nothing: whenever the mapping of [analyzeOverlaps] goes
    through, its result is stored as the analysis, without an error, and it
    has one record per payload record, with the [worktrees] of that record
    handed over unchanged, however many they are. *)
Theorem C5_mock_lists_two_hook_copies_payload :
  (∀ tauri repoPath now s,
     (∀ result, tauri ≠ TauriResolves result) →
     invoke tauri (AnalyzeWorktreeOverlaps repoPath) now s
     = (Resolved (OverlapAnalysis_js mockOverlapAnalysis), s))
  ∧ Forall (λ o, NoDup (worktrees o)
                 ∧ (2 ≤ length (worktrees o))%nat
                 ∧ worktrees o = (lastModified o).*1
                 ∧ length (lastModified o) ≠ 1%nat)
           (fileOverlaps mockOverlapAnalysis)
  ∧ (∀ new_Date result analysis,
       map_analysis new_Date result = Resolved analysis →
       (∀ repoPath now h s,
          analyzeOverlaps new_Date (TauriResolves result) repoPath now (h, s)
          = ({| overlapAnalysis := Some analysis; oa_loading := false;
                oa_error := None |}, s))
       ∧ ∃ payload mapped,
           get_prop result "file_overlaps" = Resolved (JArr payload)
           ∧ get_prop analysis "fileOverlaps" = Resolved (JArr mapped)
           ∧ Forall2 (λ o m, get_prop m "worktrees" = get_prop o "worktrees")
                     payload mapped).
Proof.
  split_and!.
  - intros tauri repoPath now s H. by rewrite mock_or_failed_backend.
  - apply (bool_decide_unpack _). by vm_compute.
  - intros new_Date result analysis Hmapped. split.
    { intros repoPath now h s. unfold analyzeOverlaps, invoke.
      cbv beta iota zeta. change (Resolved result ≫= map_analysis new_Date)
        with (map_analysis new_Date result). by rewrite Hmapped. }
    revert Hmapped. unfold map_analysis.
    destruct (get_prop result "total_overlaps") as [total|]; simpl; [|done].
    destruct (get_prop result "file_overlaps") as [overlaps|]; simpl; [|done].
    destruct (js_map _ _ overlaps) as [mapped|] eqn:Hmap; simpl; [|done].
    destruct (get_prop result "risk_assessment") as [ra|]; simpl; [|done].
    destruct (get_prop ra "low") as [lo|]; simpl; [|done].
    destruct (get_prop ra "medium") as [me|]; simpl; [|done].
    destruct (get_prop ra "high") as [hi|]; simpl; [|done].
    destruct (get_prop result "recommendations") as [recs|]; simpl; [|done].
    intros [= <-].
    destruct overlaps as [| | | | | |payload|]; try done.
    exists payload, mapped. split_and!; [done|done|].
    simpl in Hmap. apply mapM_Resolved in Hmap.
    eapply Forall2_impl; [exact Hmap|].
    intros o m Hm. simpl in Hm. by apply map_overlap_worktrees in Hm.
Qed.

Lemma C5_mock_lists_two_hook_copies_payload_witness :
  ∃ payload mapped,
    get_prop (JObj [("total_overlaps", JInt 1);
                    ("file_overlaps",
                      JArr [JObj [("file_path", JStr "types/index.ts");
                                  ("worktrees", strings_js ["frontend-feature"; "backend-api"]);
                                  ("conflict_risk", JStr "high");
                                  ("last_modified",
                                    JObj [("frontend-feature", JStr "2024-01-01T12:30:00Z");
                                          ("backend-api", JStr "2024-01-01T11:45:00Z")])]]);
                    ("risk_assessment",
                      JObj [("low", JInt 0); ("medium", JInt 0); ("high", JInt 1)]);
                    ("recommendations", strings_js [])]) "file_overlaps"
    = Resolved (JArr payload)
    ∧ get_prop (JObj [("totalOverlaps", JInt 1);
                      ("fileOverlaps",
                        JArr [JObj [("filePath", JStr "types/index.ts");
                                    ("worktrees", strings_js ["frontend-feature"; "backend-api"]);
                                    ("conflictRisk", JStr "high");
                                    ("lastModified",
                                      JObj [("frontend-feature", JDate None);
                                            ("backend-api", JDate None)])]]);
                      ("riskAssessment",
                        JObj [("low", JInt 0); ("medium", JInt 0); ("high", JInt 1)]);
                      ("recommendations", strings_js [])]) "fileOverlaps"
      = Resolved (JArr mapped)
    ∧ Forall2 (λ o m, get_prop m "worktrees" = get_prop o "worktrees") payload mapped.
Proof.
  refine (proj2 (proj2 (proj2 C5_mock_lists_two_hook_copies_payload) (λ _, None) _ _ _)).
  reflexivity.
Defined.

(** C5 (as stated) fails for what the hook produces from a backend answer: a
    payload whose one record lists a single worktree is mapped and stored as
    the analysis, without an error, and its one FileOverlap lists that single
    worktree. *)
Lemma C5_single_worktree_overlap_stored :
  let payload :=
    JObj [("total_overlaps", JInt 1);
          ("file_overlaps",
            JArr [JObj [("file_path", JStr "src/App.tsx");
                        ("worktrees", strings_js ["only-one"]);
                        ("conflict_risk", JStr "low");
                        ("last_modified",
                          JObj [("only-one", JStr "2024-01-01T12:30:00Z")])]]);
          ("risk_assessment",
            JObj [("low", JInt 1); ("medium", JInt 0); ("high", JInt 0)]);
          ("recommendations", strings_js [])] in
  ∃ analysis overlap,
    analyzeOverlaps (λ _, Some 1704112200000) (TauriResolves payload) "/repo"
      1704114000000
      ({| overlapAnalysis := None; oa_loading := true; oa_error := None |}, initial)
    = ({| overlapAnalysis := Some analysis; oa_loading := false; oa_error := None |},
       initial)
    ∧ get_prop analysis "fileOverlaps" = Resolved (JArr [overlap])
    ∧ get_prop overlap "filePath" = Resolved (JStr "src/App.tsx")
    ∧ get_prop overlap "worktrees" = Resolved (JArr [JStr "only-one"]).
Proof.
  cbn zeta. eexists _, _. split_and!; [vm_compute; reflexivity|reflexivity..].
Qed.

(** In web mode the hook itself never gets that far: the mock answers with
    the camelCase object, [result.file_overlaps] is [undefined], and the call
    ends in the error state. *)
Lemma analyzeOverlaps_web_mode new_Date repoPath now h s :
  analyzeOverlaps new_Date NoTauri repoPath now (h, s)
  = ({| overlapAnalysis := overlapAnalysis h; oa_loading := false;
        oa_error := Some "Cannot read properties of undefined (reading 'map')" |}, s).
Proof. reflexivity. Qed.

(** ** Starting a task *)

Lemma invoke_resolves tauri c now s :
  (∀ command, c ≠ OtherCommand command) →
  resolved (invoke tauri c now s).1 = true.
Proof.
  intros Hc. destruct tauri; [|done|]; simpl;
    (destruct c; simpl; try done;
     try (by destruct (Hc command))).
Qed.

Lemma start_mock tauri worktreeName workingDirectory description now s :
  (∀ result, tauri ≠ TauriResolves result) →
  invoke tauri (StartClaudeTask worktreeName workingDirectory description) now s
  = (Resolved (JStr ("task-" +:+ pretty now)),
     (start_claude_task workingDirectory description now s).2).
Proof. intros H. by rewrite mock_or_failed_backend. Qed.

Section Start.
Variable new_Date : JsVal → option Z.

(** C6 (as the code has it): [startTask] checks nothing.  It never fails,
    whatever the working directory and the description; when the mock answers,
    it returns the identity [task-<clock>] and the request has created a
    [running] task with that working directory and description at the end of
    [mockTasks].  The one guard is in the caller [handleStartTask], which
    returns without calling [startTask], and without any failure, when the
    description typed for the worktree is empty, or is missing and the
    identity of the worktree is not the name of a member of
    [Object.prototype]; with a description typed it passes the name and the
    path of the listed worktree; and with none typed for a worktree whose
    identity is such a name, the guard lets the inherited member through. *)
Theorem C6_startTask_validates_nothing (tauri tauri' : Tauri)
    (worktreeName workingDirectory description : string) (now : Z)
    (h : ClaudeCode) (s : Mock) :
  let r := startTask new_Date tauri tauri' worktreeName workingDirectory
             description now (h, s) in
  resolved r.1 = true
  ∧ ((∀ result, tauri ≠ TauriResolves result) →
       r.1 = Resolved (JStr ("task-" +:+ pretty now))
       ∧ mockTasks r.2.2 = mockTasks s ++ [fresh (dom (heap s))]
       ∧ heap r.2.2 !! fresh (dom (heap s))
         = Some {| task_id := "task-" +:+ pretty now;
                   description := description;
                   status := running;
                   startedAt := Some now;
                   completedAt := None;
                   output := ["Task started..."; "Analyzing codebase..."];
                   workingDirectory := workingDirectory |})
  ∧ (∀ taskDescriptions worktree,
       (taskDescriptions !! wt_id worktree = None
        ∧ wt_id worktree ∉ Object_prototype_names)
       ∨ taskDescriptions !! wt_id worktree = Some "" →
       handleStartTask new_Date tauri tauri' taskDescriptions worktree now (h, s)
       = Returned)
  ∧ (∀ taskDescriptions worktree d,
       taskDescriptions !! wt_id worktree = Some d → d ≠ "" →
       handleStartTask new_Date tauri tauri' taskDescriptions worktree now (h, s)
       = let r' := startTask new_Date tauri tauri' (wt_name worktree)
                     (wt_path worktree) d now (h, s) in
         Called r'.1 (<[wt_id worktree := ""]> taskDescriptions) r'.2)
  ∧ (∀ taskDescriptions worktree,
       taskDescriptions !! wt_id worktree = None →
       wt_id worktree ∈ Object_prototype_names →
       handleStartTask new_Date tauri tauri' taskDescriptions worktree now (h, s)
       = CalledWithInherited (wt_id worktree)).
Proof.
  split_and!.
  - pose proof (invoke_resolves tauri
      (StartClaudeTask worktreeName workingDirectory description) now s) as Hr.
    cbn zeta. unfold startTask.
    destruct (invoke tauri _ now s) as [[taskId|err] s'].
    + by destruct (refreshTasks _ _ _ _).
    + by discriminate Hr.
  - intros Htauri. cbn zeta. unfold startTask. rewrite start_mock by done.
    pose proof (refreshTasks_mock_state new_Date tauri' now (set_error None h)
                  (start_claude_task workingDirectory description now s).2) as Hs.
    destruct (refreshTasks _ _ _ _) as [h' s']. simpl in Hs. subst s'. simpl.
    split_and!; [done|done|]. by rewrite lookup_insert_eq.
  - intros taskDescriptions worktree [[Hd Hown]|Hd];
      unfold handleStartTask, read_description; rewrite Hd; [|done].
    by rewrite bool_decide_false.
  - intros taskDescriptions worktree d Hd Hne.
    unfold handleStartTask, read_description.
    rewrite Hd, bool_decide_false by done.
    pose proof (invoke_resolves tauri
      (StartClaudeTask (wt_name worktree) (wt_path worktree) d) now s) as Hr.
    unfold startTask.
    destruct (invoke tauri _ now s) as [[taskId|err] s'].
    + by destruct (refreshTasks _ _ _ _).
    + by discriminate Hr.
  - intros taskDescriptions worktree Hd Hin.
    unfold handleStartTask, read_description. by rewrite Hd, bool_decide_true.
Qed.

End Start.

Lemma C6_startTask_validates_nothing_witness :
  handleStartTask (λ _, None) NoTauri NoTauri ∅
    {| wt_id := "wt-1"; wt_name := "frontend-feature";
       wt_branch := "feature/ui-components"; wt_path := "/tmp/frontend-feature";
       wt_status := active; wt_createdAt := 0; wt_lastActivity := 0 |}
    1704114000000 (useClaudeCode0, initial)
  = Returned.
Proof.
  refine (proj1 (proj2 (proj2 (C6_startTask_validates_nothing (λ _, None)
            NoTauri NoTauri "" "" "" 1704114000000 useClaudeCode0 initial))) _ _ _).
  left. split; [reflexivity|]. apply (bool_decide_unpack _). vm_compute. exact I.
Defined.

(** C6 (as stated) fails: a request with an empty description and a working
    directory that is the path of no worktree is accepted; it returns an
    identity and the registry holds the new task. *)
Lemma C6_empty_description_accepted :
  ("/nowhere" ∉ (wt_path <$> mockWorktrees initial))
  ∧ ∃ w', startTask (λ _, None) NoTauri NoTauri "ghost" "/nowhere" "" 1704114000000
            (useClaudeCode0, initial)
          = (Resolved (JStr "task-1704114000000"), w')
    ∧ cc_error w'.1 = None
    ∧ get_claude_task_status "task-1704114000000" w'.2
      = Some {| task_id := "task-1704114000000";
                description := "";
                status := running;
                startedAt := Some 1704114000000;
                completedAt := None;
                output := ["Task started..."; "Analyzing codebase..."];
                workingDirectory := "/nowhere" |}
    ∧ length (listed w'.2) = S (length (listed initial)).
Proof.
  split.
  - apply (bool_decide_unpack _). by vm_compute.
  - eexists. split; [vm_compute; reflexivity|]. split_and!; by vm_compute.
Qed.

Lemma find_task_started h ls l taskId t :
  h !! l = Some t → task_id t = taskId →
  (∀ t', t' ∈ omap (λ l', h !! l') ls → task_id t' = taskId → t' = t) →
  ∃ l', find_task h (ls ++ [l]) taskId = Some l' ∧ h !! l' = Some t.
Proof.
  intros Hl Hid. induction ls as [|l0 ls IH]; intros Hothers; simpl.
  - rewrite Hl, bool_decide_true by done. eauto.
  - rewrite omap_cons_eq in Hothers.
    destruct (h !! l0) as [t0|] eqn:Hl0.
    + case_bool_decide as Hid0.
      * exists l0. split; [done|]. rewrite Hl0. f_equal.
        apply Hothers; [left|done].
      * apply IH. intros t' Ht'. apply Hothers. by right.
    + by apply IH.
Qed.

Lemma omap_insert_fresh (h : gmap loc ClaudeTask) (ls : list loc) l t :
  h !! l = None →
  ∀ t', t' ∈ omap (λ l', <[l:=t]> h !! l') ls →
        t' = t ∨ t' ∈ omap (λ l', h !! l') ls.
Proof.
  intros Hl. induction ls as [|l0 ls IH]; intros t'; [by intros ?%elem_of_nil|].
  rewrite !omap_cons_eq. destruct (decide (l = l0)) as [<-|Hne].
  - rewrite lookup_insert_eq, Hl. intros [->|?]%elem_of_cons; auto.
  - rewrite lookup_insert_ne by done. destruct (h !! l0) as [t0|].
    + intros [->|?]%elem_of_cons; [right; left|].
      destruct (IH t') as [?|?]; auto. right. by right.
    + apply IH.
Qed.

(** Reading back a task just started, when its identity was not in use. *)
Lemma get_after_start wd desc now s :
  unknown ("task-" +:+ pretty now) s →
  get_claude_task_status ("task-" +:+ pretty now) (start_claude_task wd desc now s).2
  = Some (new_task wd desc now).
Proof.
  intros Hunk. unfold get_claude_task_status. simpl.
  destruct (find_task_started (<[fresh (dom (heap s)):=new_task wd desc now]> (heap s))
              (mockTasks s) (fresh (dom (heap s))) ("task-" +:+ pretty now)
              (new_task wd desc now)) as (l' & -> & Hl').
  - apply lookup_insert_eq.
  - done.
  - intros t' Ht' Hid.
    destruct (omap_insert_fresh _ _ _ _ (fresh_heap_None (heap s)) t' Ht') as [?|Hin];
      [done|]. by destruct (Hunk t' Hin).
  - done.
Qed.

(** C7 (as the code has it): when no task of the registry carries the
    identity [task-<clock>] yet, [start_claude_task] followed at once by
    [get_claude_task_status] on the identity returned gives the task just
    created: [running], [startedAt] the call time, and the two initial output
    lines. *)
Theorem C7_started_task_is_visible
    (worktreeName workingDirectory description : string) (now now' : Z) (s : Mock) :
  unknown ("task-" +:+ pretty now) s →
  let started :=
    invoke NoTauri (StartClaudeTask worktreeName workingDirectory description) now s in
  ∃ t, started.1 = Resolved (JStr (task_id t))
     ∧ get_claude_task_status (task_id t) started.2 = Some t
     ∧ invoke NoTauri (GetClaudeTaskStatus (task_id t)) now' started.2
       = (Resolved (ClaudeTask_js t), started.2)
     ∧ status t = running
     ∧ startedAt t = Some now
     ∧ output t = ["Task started..."; "Analyzing codebase..."]
     ∧ output t ≠ [].
Proof.
  intros Hunk. exists (new_task workingDirectory description now).
  cbn zeta. simpl invoke. cbn [fst snd].
  pose proof (get_after_start workingDirectory description now s Hunk) as Hget.
  simpl in Hget |- *. rewrite Hget. done.
Qed.

Lemma C7_started_task_is_visible_witness :
  ∃ t, (invoke NoTauri (StartClaudeTask "frontend-feature" "/tmp/frontend-feature" "x")
          1704114000000 initial).1 = Resolved (JStr (task_id t))
     ∧ get_claude_task_status (task_id t)
         (invoke NoTauri (StartClaudeTask "frontend-feature" "/tmp/frontend-feature" "x")
            1704114000000 initial).2 = Some t
     ∧ invoke NoTauri (GetClaudeTaskStatus (task_id t)) 1704114000001
         (invoke NoTauri (StartClaudeTask "frontend-feature" "/tmp/frontend-feature" "x")
            1704114000000 initial).2
       = (Resolved (ClaudeTask_js t),
          (invoke NoTauri (StartClaudeTask "frontend-feature" "/tmp/frontend-feature" "x")
             1704114000000 initial).2)
     ∧ status t = running
     ∧ startedAt t = Some 1704114000000
     ∧ output t = ["Task started..."; "Analyzing codebase..."]
     ∧ output t ≠ [].
Proof.
  apply (C7_started_task_is_visible "frontend-feature" "/tmp/frontend-feature"
           "x" 1704114000000 1704114000001 initial).
  apply unknown_find. vm_compute. reflexivity.
Defined.

(** C7 (as stated) fails when the identity is already in use: identities are
    [task-<clock>], and a task started at the same clock reading as an
    earlier one gets the earlier one's identity; the status query finds the
    earlier task, here a cancelled one. *)
Lemma C7_identity_reused :
  ∃ s, run [Call NoTauri (StartClaudeTask "frontend-feature" "/tmp/frontend-feature" "first")
              1704114000000;
            Call NoTauri (CancelClaudeTask "task-1704114000000") 1704114000000]
           initial = Some s
    ∧ ∃ s', invoke NoTauri (StartClaudeTask "backend-api" "/tmp/backend-api" "second")
              1704114000000 s
            = (Resolved (JStr "task-1704114000000"), s')
      ∧ (status <$> get_claude_task_status "task-1704114000000" s') = Some failed
      ∧ (description <$> get_claude_task_status "task-1704114000000" s') = Some "first".
Proof.
  eexists. split; [reflexivity|].
  eexists. split; [vm_compute; reflexivity|]. split; by vm_compute.
Qed.

(** ** The completion timer *)

Lemma start_timer wd desc now s :
  timers (start_claude_task wd desc now s).2 !! length (timers s)
  = Some (now + 5000, fresh (dom (heap s))).
Proof. simpl. by rewrite lookup_app_r, Nat.sub_diag. Qed.

Lemma run_started_timer wd desc now now' s :
  now + 5000 ≤ now' →
  run_timer (length (timers s)) now' (start_claude_task wd desc now s).2
  = Some {| heap := <[fresh (dom (heap s)) := complete_task now' (new_task wd desc now)]>
                      (heap s);
            mockWorktrees := mockWorktrees s;
            mockTasks := mockTasks s ++ [fresh (dom (heap s))];
            timers := timers s |}.
Proof.
  intros Hdue. unfold run_timer. rewrite start_timer, bool_decide_true by done.
  simpl. rewrite alter_insert_eq. do 2 f_equal.
  rewrite delete_take_drop, take_app_length.
  rewrite drop_ge by (rewrite length_app; simpl; lia). apply app_nil_r.
Qed.

Lemma get_after_timer wd desc now now' s :
  unknown ("task-" +:+ pretty now) s →
  get_claude_task_status ("task-" +:+ pretty now)
    {| heap := <[fresh (dom (heap s)) := complete_task now' (new_task wd desc now)]>
                 (heap s);
       mockWorktrees := mockWorktrees s;
       mockTasks := mockTasks s ++ [fresh (dom (heap s))];
       timers := timers s |}
  = Some (complete_task now' (new_task wd desc now)).
Proof.
  intros Hunk. unfold get_claude_task_status. cbn [heap mockTasks].
  destruct (find_task_started
              (<[fresh (dom (heap s)) := complete_task now' (new_task wd desc now)]> (heap s))
              (mockTasks s) (fresh (dom (heap s))) ("task-" +:+ pretty now)
              (complete_task now' (new_task wd desc now))) as (l' & -> & Hl').
  - apply lookup_insert_eq.
  - done.
  - intros t' Ht' Hid.
    destruct (omap_insert_fresh _ _ _ _ (fresh_heap_None (heap s)) t' Ht') as [?|Hin];
      [done|]. by destruct (Hunk t' Hin).
  - done.
Qed.

(** C10: a successful [start_claude_task] in mock mode leaves a callback
    pending, due 5000 ms after the call, that holds the task just created.
    The callback cannot run before it is due; from then on the event loop can
    run it, with no command involved, and running it sets the task to
    [completed], sets [completedAt] to the time it runs, and appends
    "Task completed successfully!" to the output, leaving the rest of the
    store alone.  A status query on the identity then no longer sees
    [running]. *)
Theorem C10_timer_completes_started_task
    (workingDirectory description : string) (now now' : Z) (s : Mock) :
  let s1 := (start_claude_task workingDirectory description now s).2 in
  let l := fresh (dom (heap s)) in
  let k := length (timers s) in
  timers s1 !! k = Some (now + 5000, l)
  ∧ heap s1 !! l = Some (new_task workingDirectory description now)
  ∧ (now' < now + 5000 → run_timer k now' s1 = None)
  ∧ (now + 5000 ≤ now' →
       ∃ s2, run_timer k now' s1 = Some s2
         ∧ step (Timeout k now') s1 = Some s2
         ∧ heap s2 !! l
           = Some {| task_id := "task-" +:+ pretty now;
                     description := description;
                     status := completed;
                     startedAt := Some now;
                     completedAt := Some now';
                     output := ["Task started..."; "Analyzing codebase...";
                                "Task completed successfully!"];
                     workingDirectory := workingDirectory |}
         ∧ (∀ l', l' ≠ l → heap s2 !! l' = heap s !! l')
         ∧ mockTasks s2 = mockTasks s1
         ∧ mockWorktrees s2 = mockWorktrees s1
         ∧ timers s2 = timers s
         ∧ (unknown ("task-" +:+ pretty now) s →
              status <$> get_claude_task_status ("task-" +:+ pretty now) s1 = Some running
              ∧ status <$> get_claude_task_status ("task-" +:+ pretty now) s2
                = Some completed)).
Proof.
  cbn zeta. split_and!.
  - apply start_timer.
  - simpl. by rewrite lookup_insert_eq.
  - intros Hearly. unfold run_timer.
    rewrite start_timer, bool_decide_false by lia. done.
  - intros Hdue. unfold step. rewrite run_started_timer by done.
    eexists. split; [reflexivity|]. split; [reflexivity|]. cbn [heap mockTasks timers mockWorktrees].
    split_and!; try done.
    + by rewrite lookup_insert_eq.
    + intros l' Hne. by rewrite lookup_insert_ne.
    + intros Hunk. by rewrite get_after_start, get_after_timer.
Qed.

Lemma C10_timer_completes_started_task_witness :
  ∃ s2, run [Call NoTauri (StartClaudeTask "backend-api" "/tmp/backend-api" "x") 1704114000000;
             Timeout 0 1704114005000] initial = Some s2
    ∧ (status <$> get_claude_task_status "task-1704114000000" s2) = Some completed.
Proof.
  destruct (proj2 (proj2 (proj2 (C10_timer_completes_started_task
              "/tmp/backend-api" "x" 1704114000000 1704114005000 initial))))
    as (s2 & Hrun & _ & _ & _ & _ & _ & _ & Hst).
  - lia.
  - exists s2. split.
    + simpl. exact Hrun.
    + apply Hst, unknown_find. vm_compute. reflexivity.
Defined.

(** ** Failures at the boundary *)

Lemma mock_rejects c now s :
  resolved (mock c now s).1 = false ↔ ∃ command, c = OtherCommand command.
Proof.
  split.
  - destruct c; simpl; try done; try (by repeat case_match). eauto.
  - by intros [command ->].
Qed.

Section Boundary.
Variable new_Date : JsVal → option Z.

(** C8 (as the code has it): [invoke] catches a failure of the backend
    command and answers from the mock implementation of that command, exactly
    as in web mode: same result, same effect on the mock state.  [invoke]
    itself fails only for a command the mock has no case for, with the
    message "Command <name> not implemented in mock mode"; so none of the
    commands the task hooks send ever fails, and a failed backend never
    reaches their [catch] blocks.  What a hook does catch it hands on as an
    [Error] with a message: here the [TypeError] raised while mapping what
    [get_claude_task_status] returned. *)
Theorem C8_backend_failure_falls_back_to_mock (error : Thrown) (c : Command)
    (now : Z) (s : Mock) :
  invoke (TauriRejects error) c now s = invoke NoTauri c now s
  ∧ invoke (TauriRejects error) c now s = mock c now s
  ∧ (resolved (invoke (TauriRejects error) c now s).1 = false ↔
       ∃ command, c = OtherCommand command)
  ∧ (∀ command,
       invoke (TauriRejects error) (OtherCommand command) now s
       = (Rejected (JsError ("Command " +:+ command +:+ " not implemented in mock mode")),
          s))
  ∧ (∀ tauri, (∀ command, c ≠ OtherCommand command) →
       resolved (invoke tauri c now s).1 = true)
  ∧ (∀ tauri taskId,
       resolved (getTaskStatus new_Date tauri taskId now s).1 = false →
       ∃ message,
         (getTaskStatus new_Date tauri taskId now s).1 = Rejected (JsError message)
         ∧ ∃ result, (invoke tauri (GetClaudeTaskStatus taskId) now s).1 = Resolved result
             ∧ map_task new_Date result = Rejected (JsError message)).
Proof.
  split_and!; try done.
  - apply mock_rejects.
  - intros tauri Hc. by apply invoke_resolves.
  - intros tauri taskId. unfold getTaskStatus.
    pose proof (invoke_resolves tauri (GetClaudeTaskStatus taskId) now s) as Hr.
    destruct (invoke tauri _ now s) as [[result|err] s']; simpl in *.
    + destruct (map_task new_Date result) as [task|err] eqn:Hmap; simpl; [done|].
      intros _. exists (message_or "Failed to get task status" err).
      split; [done|]. exists result. split; [done|].
      revert Hmap. unfold map_task.
      destruct result; simpl; try done; by intros [= <-].
    + by discriminate Hr.
Qed.

End Boundary.

Lemma C8_backend_failure_falls_back_to_mock_witness :
  ∃ message,
    (getTaskStatus (λ _, None) (TauriRejects (JsOther (JStr "backend unreachable")))
       "task-3" 0 initial).1 = Rejected (JsError message)
    ∧ ∃ result,
        (invoke (TauriRejects (JsOther (JStr "backend unreachable")))
           (GetClaudeTaskStatus "task-3") 0 initial).1 = Resolved result
        ∧ map_task (λ _, None) result = Rejected (JsError message).
Proof.
  apply (proj2 (proj2 (proj2 (proj2 (proj2
           (C8_backend_failure_falls_back_to_mock (λ _, None)
              (JsOther (JStr "backend unreachable"))
              (GetClaudeTaskStatus "task-3") 0 initial)))))).
  reflexivity.
Defined.

(** C8 (as stated) fails: the backend rejects [list_claude_tasks]; [invoke]
    resolves with the two tasks of the mock, and [refreshTasks] records no
    error and shows them. *)
Lemma C8_failure_replaced_by_mock_data :
  invoke (TauriRejects (JsOther (JStr "backend unreachable"))) ListClaudeTasks 0 initial
  = (Resolved (JArr [ClaudeTask_js mockTask1; ClaudeTask_js mockTask2]), initial)
  ∧ cc_error (refreshTasks (λ _, None) (TauriRejects (JsOther (JStr "backend unreachable")))
                0 (useClaudeCode0, initial)).1 = None
  ∧ length (cc_tasks (refreshTasks (λ _, None)
                        (TauriRejects (JsOther (JStr "backend unreachable")))
                        0 (useClaudeCode0, initial)).1) = 2%nat.
Proof. split_and!; reflexivity. Qed.

(** ** The polling effect *)

Lemma tick_times_S due n :
  tick_times due (S n) = due :: tick_times (due + 5000) n.
Proof.
  unfold tick_times. simpl. f_equal; [lia|].
  rewrite <-fmap_S_seq, <-list_fmap_compose.
  apply list_fmap_ext. intros _ i _. simpl. lia.
Qed.

Lemma poll_run_ticks es : ∀ p p' due,
  interval p = Some due →
  Forall (λ e, e = Tick ∨ e = Settle) es →
  poll_run es p = Some p' →
  let n := length (filter (λ e, is_tick e) es) in
  refreshes p' = refreshes p ++ tick_times due n
  ∧ interval p' = Some (due + 5000 * Z.of_nat n).
Proof.
  induction es as [|e es IH]; intros p p' due Hdue Hes Hrun; cbn zeta.
  - injection Hrun as <-. simpl. rewrite app_nil_r, Hdue.
    split; [done|f_equal; lia].
  - apply Forall_cons in Hes as [[->| ->] Hes]; simpl in Hrun.
    + rewrite Hdue in Hrun. simpl in Hrun.
      eapply IH in Hrun as [Hr Hi]; [|done|done]. cbn zeta in Hr, Hi.
      rewrite filter_cons_True by done. simpl length.
      rewrite tick_times_S, Hr, Hi. simpl. rewrite <-app_assoc.
      split; [reflexivity|f_equal; lia].
    + destruct (in_flight p) as [|m]; [done|]. simpl in Hrun.
      eapply IH in Hrun as [Hr Hi]; [|done|done]. cbn zeta in Hr, Hi.
      rewrite filter_cons_False by (by intros []). by rewrite Hr, Hi.
Qed.

Lemma poll_run_unmounted es : ∀ p p',
  interval p = None →
  Forall (λ e, ¬ is_mount e) es →
  poll_run es p = Some p' →
  refreshes p' = refreshes p ∧ interval p' = None ∧ Forall (λ e, ¬ is_tick e) es.
Proof.
  induction es as [|e es IH]; intros p p' Hi Hes Hrun.
  - injection Hrun as <-. by repeat split.
  - apply Forall_cons in Hes as [He Hes]. destruct e; simpl in Hrun.
    + by destruct He.
    + by rewrite Hi in Hrun.
    + destruct (in_flight p) as [|m]; [done|]. simpl in Hrun.
      eapply IH in Hrun as (? & ? & ?); [|done|done].
      repeat split; [done|done|]. constructor; [by intros []|done].
    + eapply IH in Hrun as (? & ? & ?); [|done|done].
      repeat split; [done|done|]. constructor; [by intros []|done].
Qed.

(** C9 (as the code has it): when the effect runs it calls [refreshTasks]
    once and registers an interval of 5000 ms; every tick of the interval
    calls [refreshTasks] again, whatever number of earlier calls is still in
    flight (the number in flight goes up by one: nothing is skipped or
    queued); so after the mount at [now] and [n] ticks, with refreshes
    settling at any points in between, the effect has called [refreshTasks]
    at [now], [now + 5000], ..., [now + 5000 * n]; and once the cleanup has
    run, no tick can happen and no further refresh is started, unless the
    effect is mounted again. *)
Theorem C9_poller_ticks_regardless_of_flight (now : Z) :
  poll_step (Mount now) poller0
  = Some {| interval := Some (now + 5000); in_flight := 1; refreshes := [now] |}
  ∧ (∀ p due,
       interval p = Some due →
       poll_step Tick p
       = Some {| interval := Some (due + 5000);
                 in_flight := S (in_flight p);
                 refreshes := refreshes p ++ [due] |})
  ∧ (∀ es p,
       Forall (λ e, e = Tick ∨ e = Settle) es →
       poll_run (Mount now :: es) poller0 = Some p →
       refreshes p = now :: tick_times (now + 5000) (length (filter (λ e, is_tick e) es)))
  ∧ (∀ es p p',
       Forall (λ e, ¬ is_mount e) es →
       poll_run (Unmount :: es) p = Some p' →
       refreshes p' = refreshes p
       ∧ interval p' = None
       ∧ Forall (λ e, ¬ is_tick e) es)
  ∧ (∀ p, poll_step Tick (default p (poll_step Unmount p)) = None).
Proof.
  split_and!.
  - done.
  - intros p due Hdue. simpl. by rewrite Hdue.
  - intros es p Hes Hrun. simpl in Hrun.
    eapply poll_run_ticks in Hrun as [Hr _]; [|done|done]. by rewrite Hr.
  - intros es p p' Hes Hrun. simpl in Hrun.
    by eapply poll_run_unmounted in Hrun.
  - done.
Qed.

Lemma C9_poller_ticks_regardless_of_flight_witness :
  refreshes {| interval := Some 15000; in_flight := 1; refreshes := [0; 5000; 10000] |}
  = 0 :: tick_times 5000 2.
Proof.
  apply (proj1 (proj2 (proj2 (C9_poller_ticks_regardless_of_flight 0)))
           [Tick; Settle; Settle; Tick]).
  - repeat (apply Forall_cons_2; [first [by left | by right]|]). apply Forall_nil_2.
  - reflexivity.
Defined.

(** C9 (as stated) fails: the refresh started at the mount has not returned
    when the interval fires; the tick starts a second refresh, and two are in
    flight. *)
Lemma C9_tick_starts_second_refresh :
  poll_run [Mount 0] poller0
  = Some {| interval := Some 5000; in_flight := 1; refreshes := [0] |}
  ∧ poll_run [Mount 0; Tick] poller0
    = Some {| interval := Some 10000; in_flight := 2; refreshes := [0; 5000] |}.
Proof. split; reflexivity. Qed.

(** * Further properties of the code *)

(** ** Task objects over the life of the mock *)

(** How one step can change the store: an object is there already and is
    left alone, cancelled or completed; or it is the task just started. *)
Lemma mock_heap_inv c now s l t' :
  heap (mock c now s).2 !! l = Some t' →
  (∃ t, heap s !! l = Some t
        ∧ (t' = t ∨ (∃ now, t' = cancel_task now t) ∨ (∃ now, t' = complete_task now t)))
  ∨ (heap s !! l = None ∧ ∃ wd desc now, t' = new_task wd desc now).
Proof.
  assert (heap s !! l = Some t' →
          (∃ t, heap s !! l = Some t
                ∧ (t' = t ∨ (∃ now, t' = cancel_task now t)
                   ∨ (∃ now, t' = complete_task now t)))
          ∨ (heap s !! l = None ∧ ∃ wd desc now, t' = new_task wd desc now)) as Hsame
    by (intros; left; eauto).
  destruct c; try exact Hsame.
  - simpl. unfold delete_worktree. by destruct (findIndex_name _ _).
  - simpl. rewrite lookup_insert. case_decide as Hl; [|done].
    intros [= <-]. subst l. right. split; [apply fresh_heap_None|eauto].
  - simpl. unfold cancel_claude_task.
    destruct (find_task _ _ _) as [l0|]; [|done]. simpl.
    rewrite lookup_alter. case_decide as Hl; [subst l0|done].
    destruct (heap s !! l) as [t|]; simpl; [|done]. intros [= <-]. left. eauto 6.
Qed.

Lemma step_heap_inv e s s' l t' :
  step e s = Some s' →
  heap s' !! l = Some t' →
  (∃ t, heap s !! l = Some t
        ∧ (t' = t ∨ (∃ now, t' = cancel_task now t) ∨ (∃ now, t' = complete_task now t)))
  ∨ (heap s !! l = None ∧ ∃ wd desc now, t' = new_task wd desc now).
Proof.
  destruct e as [tauri c now|k now]; simpl.
  - intros [= <-]. destruct tauri; simpl; [apply mock_heap_inv| |apply mock_heap_inv].
    intros; left; eauto.
  - intros (due & l0 & _ & _ & ->)%run_timer_Some. simpl.
    rewrite lookup_alter. case_decide as Hl; [subst l0|left; eauto].
    destruct (heap s !! l) as [t|]; simpl; [|done]. intros [= <-]. left. eauto 6.
Qed.

(** A step never drops an object from the store. *)
Lemma mock_heap_fwd c now s l t :
  heap s !! l = Some t →
  ∃ t', heap (mock c now s).2 !! l = Some t'
    ∧ (t' = t ∨ (∃ now, t' = cancel_task now t)).
Proof.
  intros Hl.
  destruct c;
    try (exists t; split; [apply mock_heap_preserved; [intros ?; discriminate|done]
                          |by left]).
  simpl. unfold cancel_claude_task.
  destruct (find_task _ _ _) as [l0|]; [|by eauto]. simpl.
  rewrite lookup_alter. case_decide; [subst l0|]; rewrite Hl; simpl; eauto 8.
Qed.

Lemma step_heap_fwd e s s' l t :
  step e s = Some s' →
  heap s !! l = Some t →
  ∃ t', heap s' !! l = Some t'
    ∧ (t' = t ∨ (∃ now, t' = cancel_task now t) ∨ (∃ now, t' = complete_task now t)).
Proof.
  destruct e as [tauri c now|k now]; simpl.
  - intros [= <-] Hl.
    destruct tauri; simpl; [|by eauto|];
      destruct (mock_heap_fwd c now s l t Hl) as (t' & ? & [?|?]); eauto 8.
  - intros (due & l0 & _ & _ & ->)%run_timer_Some Hl. simpl.
    rewrite lookup_alter. case_decide; [subst l0|]; rewrite Hl; simpl; eauto 8.
Qed.

Lemma task_ok_cancel now t : task_ok t → task_ok (cancel_task now t).
Proof.
  intros (Hp & Hs & Hc & Ho). repeat split; simpl; try done.
  intros Hnil. by apply app_eq_nil in Hnil as [_ ?].
Qed.

Lemma task_ok_complete now t : task_ok t → task_ok (complete_task now t).
Proof.
  intros (Hp & Hs & Hc & Ho). repeat split; simpl; try done.
  intros Hnil. by apply app_eq_nil in Hnil as [_ ?].
Qed.

Lemma task_ok_new wd desc now : task_ok (new_task wd desc now).
Proof. by repeat split. Qed.

(** X1: The tasks of every reachable state: none is [pending]; each has a start
    time and at least one output line; and [completedAt] is absent exactly
    on the [running] ones.  This holds for every object of the store, so for
    every listed task. *)
Theorem reachable_tasks_ok (s : Mock) :
  reachable s →
  (∀ l t, heap s !! l = Some t → task_ok t)
  ∧ (∀ t, t ∈ listed s →
       status t ≠ pending
       ∧ is_Some (startedAt t)
       ∧ (completedAt t = None ↔ status t = running)
       ∧ output t ≠ []).
Proof.
  intros [es Hrun].
  assert (∀ l t, heap s !! l = Some t → task_ok t) as Hok.
  { revert Hrun.
    assert (∀ l t, heap initial !! l = Some t → task_ok t) as Hinit.
    { intros l t. change (heap initial) with ({[0%nat := mockTask1; 1%nat := mockTask2]}
                                               : gmap loc ClaudeTask).
      rewrite lookup_insert. case_decide.
      - intros [= <-]. by repeat split.
      - rewrite lookup_singleton. case_decide; [|done].
        intros [= <-]. by repeat split. }
    revert Hinit. generalize initial.
    induction es as [|e es IH]; intros s0 Hs0; simpl.
    - by intros [= <-].
    - destruct (step e s0) as [s1|] eqn:Hstep; simpl; [|done].
      apply IH. intros l t' Hl.
      destruct (step_heap_inv e s0 s1 l t' Hstep Hl)
        as [(t & Ht & [->|[[now ->]|[now ->]]])|(_ & wd & desc & now & ->)];
        eauto using task_ok_cancel, task_ok_complete, task_ok_new. }
  split; [done|].
  intros t [l [_ Hl]]%list_elem_of_omap. by apply (Hok l).
Qed.

Lemma reachable_tasks_ok_witness : task_ok mockTask2.
Proof.
  apply (proj1 (reachable_tasks_ok initial (ex_intro _ [] eq_refl)) 1%nat).
  reflexivity.
Defined.

Lemma later_of_refl t : later_of t t.
Proof. by repeat split. Qed.

Lemma later_of_trans t1 t2 t3 : later_of t1 t2 → later_of t2 t3 → later_of t1 t3.
Proof.
  intros (? & ? & ? & ? & ?) (? & ? & ? & ? & ?).
  repeat split; try congruence. by etrans.
Qed.

(** X2: Over any run of commands and timers, an object of the store stays in the
    store and keeps its identity, description, start time and working
    directory; its output only grows at the end. *)
Theorem run_keeps_identity_appends_output (es : list Event) (s s' : Mock)
    (l : loc) (t : ClaudeTask) :
  run es s = Some s' →
  heap s !! l = Some t →
  ∃ t', heap s' !! l = Some t'
    ∧ task_id t' = task_id t
    ∧ description t' = description t
    ∧ startedAt t' = startedAt t
    ∧ workingDirectory t' = workingDirectory t
    ∧ output t `prefix_of` output t'.
Proof.
  change (run es s = Some s' → heap s !! l = Some t →
          ∃ t', heap s' !! l = Some t' ∧ later_of t t').
  revert s t. induction es as [|e es IH]; intros s t; simpl.
  - intros [= <-] Hl. eauto using later_of_refl.
  - destruct (step e s) as [s1|] eqn:Hstep; simpl; [|done].
    intros Hrun Hl.
    destruct (step_heap_fwd e s s1 l t Hstep Hl) as (t1 & Hl1 & Ht1).
    destruct (IH s1 t1 Hrun Hl1) as (t' & Hl' & Hlater).
    exists t'. split; [done|]. eapply later_of_trans; [|done].
    destruct Ht1 as [->|[[now ->]|[now ->]]].
    + apply later_of_refl.
    + repeat split. simpl. by apply prefix_app_r.
    + repeat split. simpl. by apply prefix_app_r.
Qed.

Lemma run_keeps_identity_appends_output_witness :
  ∃ t', heap (cancel_claude_task "task-1" 1704114000000 initial) !! 0%nat = Some t'
    ∧ task_id t' = task_id mockTask1
    ∧ description t' = description mockTask1
    ∧ startedAt t' = startedAt mockTask1
    ∧ workingDirectory t' = workingDirectory mockTask1
    ∧ output mockTask1 `prefix_of` output t'.
Proof.
  apply (run_keeps_identity_appends_output
           [Call NoTauri (CancelClaudeTask "task-1") 1704114000000] initial);
    reflexivity.
Defined.

(** ** Listing, cancelling and timers together *)

Lemma listed_insert_fresh (h : gmap loc ClaudeTask) (ls : list loc) l t :
  Forall (λ l', is_Some (h !! l')) ls →
  h !! l = None →
  omap (λ l', <[l:=t]> h !! l') ls = omap (λ l', h !! l') ls.
Proof.
  intros Hls Hl. induction Hls as [|l0 ls [t0 Hl0] _ IH]; [done|].
  rewrite !omap_cons_eq, lookup_insert_ne by congruence. by rewrite IH.
Qed.

(** X3: In a reachable state, a task that was started is the last entry of the
    listing, and the entries before it are those listed before, unchanged:
    [list_claude_tasks] after [start_claude_task] shows the old tasks and
    then the new one. *)
Theorem start_then_list (workingDirectory description : string) (now now' : Z)
    (s : Mock) :
  reachable s →
  let s' := (start_claude_task workingDirectory description now s).2 in
  listed s' = listed s ++ [new_task workingDirectory description now]
  ∧ invoke NoTauri ListClaudeTasks now' s'
    = (Resolved (JArr ((ClaudeTask_js <$> listed s)
                       ++ [ClaudeTask_js (new_task workingDirectory description now)])),
       s').
Proof.
  intros (_ & Hts & _)%wf_reachable. cbn zeta.
  assert (listed (start_claude_task workingDirectory description now s).2
          = listed s ++ [new_task workingDirectory description now]) as Hl.
  { unfold listed, task_at. simpl. rewrite omap_app.
    rewrite listed_insert_fresh by auto using fresh_heap_None.
    f_equal. simpl. by rewrite lookup_insert_eq. }
  split; [done|]. unfold invoke, mock. cbv beta iota. by rewrite Hl, fmap_app.
Qed.

Lemma start_then_list_witness :
  listed (start_claude_task "/tmp/backend-api" "x" 1704114000000 initial).2
  = listed initial ++ [new_task "/tmp/backend-api" "x" 1704114000000].
Proof.
  apply (proj1 (start_then_list "/tmp/backend-api" "x" 1704114000000 0 initial
                  (ex_intro _ [] eq_refl))).
Defined.

(** X4: Cancelling does not stop the completion timer: a task started under an
    identity not in use, then cancelled, is [failed] until its timer runs,
    and [completed] afterwards, with both markers in its output. *)
Theorem cancelled_task_completes_anyway
    (workingDirectory description : string) (now now1 now2 : Z) (s : Mock) :
  unknown ("task-" +:+ pretty now) s →
  now + 5000 ≤ now2 →
  let taskId := "task-" +:+ pretty now in
  let s1 := (start_claude_task workingDirectory description now s).2 in
  let s2 := cancel_claude_task taskId now1 s1 in
  status <$> get_claude_task_status taskId s2 = Some failed
  ∧ ∃ s3, run_timer (length (timers s)) now2 s2 = Some s3
      ∧ get_claude_task_status taskId s3
        = Some {| task_id := taskId;
                  description := description;
                  status := completed;
                  startedAt := Some now;
                  completedAt := Some now2;
                  output := ["Task started..."; "Analyzing codebase...";
                             "Task cancelled by user";
                             "Task completed successfully!"];
                  workingDirectory := workingDirectory |}.
Proof.
  intros Hunk Hdue. cbn zeta.
  set (l := fresh (dom (heap s))).
  set (t := new_task workingDirectory description now).
  assert (find_task (<[l:=t]> (heap s)) (mockTasks s ++ [l]) ("task-" +:+ pretty now)
          = Some l) as Hfind.
  { destruct (find_task_started (<[l:=t]> (heap s)) (mockTasks s) l
                ("task-" +:+ pretty now) t) as (l' & Hf & Hl').
    - apply lookup_insert_eq.
    - done.
    - intros t' Ht' Hid.
      destruct (omap_insert_fresh _ _ _ _ (fresh_heap_None (heap s)) t' Ht')
        as [?|Hin]; [done|]. by destruct (Hunk t' Hin).
    - rewrite Hf. f_equal.
      destruct (decide (l' = l)) as [?|Hne]; [done|].
      apply find_task_Some in Hf as [Hin (t'' & Hl'' & Hid)].
      rewrite lookup_insert_ne in Hl'' by done.
      destruct (Hunk t''); [|done].
      apply list_elem_of_omap. exists l'. split; [|done].
      apply elem_of_app in Hin as [?|?%list_elem_of_singleton]; done. }
  assert (cancel_claude_task ("task-" +:+ pretty now) now1
            (start_claude_task workingDirectory description now s).2
          = {| heap := <[l := cancel_task now1 t]> (heap s);
               mockWorktrees := mockWorktrees s;
               mockTasks := mockTasks s ++ [l];
               timers := timers s ++ [(now + 5000, l)] |}) as ->.
  { unfold cancel_claude_task. simpl. fold l t. rewrite Hfind. simpl.
    by rewrite alter_insert_eq. }
  assert (∀ t0, task_id t0 = "task-" +:+ pretty now →
            get_claude_task_status ("task-" +:+ pretty now)
              {| heap := <[l := t0]> (heap s); mockWorktrees := mockWorktrees s;
                 mockTasks := mockTasks s ++ [l];
                 timers := timers s |} = Some t0) as Hget.
  { intros t0 Hid. unfold get_claude_task_status. cbn [heap mockTasks].
    destruct (find_task_started (<[l:=t0]> (heap s)) (mockTasks s) l
                ("task-" +:+ pretty now) t0) as (l' & -> & Hl').
    - apply lookup_insert_eq.
    - done.
    - intros t' Ht' Hid'.
      destruct (omap_insert_fresh _ _ _ _ (fresh_heap_None (heap s)) t' Ht')
        as [?|Hin]; [done|]. by destruct (Hunk t' Hin).
    - done. }
  split.
  - unfold get_claude_task_status in *. cbn [heap mockTasks] in *.
    by rewrite (Hget (cancel_task now1 t)).
  - unfold run_timer. cbn [timers].
    rewrite lookup_app_r, Nat.sub_diag by done. simpl.
    rewrite bool_decide_true by done.
    eexists. split; [reflexivity|].
    rewrite alter_insert_eq, delete_take_drop, take_app_length.
    rewrite drop_ge by (rewrite length_app; simpl; lia). rewrite app_nil_r.
    by rewrite (Hget (complete_task now2 (cancel_task now1 t))).
Qed.

Lemma cancelled_task_completes_anyway_witness :
  status <$> get_claude_task_status "task-1704114000000"
    (cancel_claude_task "task-1704114000000" 1704114002000
       (start_claude_task "/tmp/backend-api" "x" 1704114000000 initial).2)
  = Some failed.
Proof.
  refine (proj1 (cancelled_task_completes_anyway "/tmp/backend-api" "x"
                   1704114000000 1704114002000 1704114005000 initial _ _)).
  - apply unknown_find. vm_compute. reflexivity.
  - lia.
Defined.

(** ** Worktrees *)

Lemma findIndex_name_None name ws :
  findIndex_name name ws = None ↔ name ∉ (wt_name <$> ws).
Proof.
  induction ws as [|w ws IH]; simpl.
  - split; [|done]. intros _ ?%elem_of_nil. done.
  - rewrite not_elem_of_cons. case_bool_decide as Hw.
    + split; [done|]. by intros [? _].
    + destruct (findIndex_name name ws); simpl.
      * split; [done|]. intros [_ Hn]. by apply IH in Hn.
      * split; [|done]. intros _. split; [done|]. by apply IH.
Qed.

Lemma findIndex_name_first name pre w post :
  wt_name w = name →
  name ∉ (wt_name <$> pre) →
  findIndex_name name (pre ++ w :: post) = Some (length pre).
Proof.
  intros Hw. induction pre as [|w0 pre IH]; simpl.
  - intros _. by rewrite bool_decide_true.
  - rewrite not_elem_of_cons. intros [Hne Hpre].
    rewrite bool_decide_false by done. by rewrite IH.
Qed.

Lemma delete_middle {A} (pre : list A) (x : A) (post : list A) :
  delete (length pre) (pre ++ x :: post) = pre ++ post.
Proof. induction pre as [|y pre IH]; simpl; [done|]. by rewrite IH. Qed.

(** X5: [delete_worktree] removes the first worktree carrying the name and only
    that one, keeping the order of the others; when no worktree carries the
    name it changes nothing, and the command succeeds all the same.  Tasks
    and timers are never touched. *)
Theorem delete_worktree_first_match (repoPath name : string) (now : Z) (s : Mock) :
  invoke NoTauri (DeleteWorktree repoPath name) now s
  = (Resolved JUndefined, delete_worktree name s)
  ∧ heap (delete_worktree name s) = heap s
  ∧ mockTasks (delete_worktree name s) = mockTasks s
  ∧ timers (delete_worktree name s) = timers s
  ∧ (name ∉ (wt_name <$> mockWorktrees s) → delete_worktree name s = s)
  ∧ (∀ pre w post,
       mockWorktrees s = pre ++ w :: post →
       wt_name w = name →
       name ∉ (wt_name <$> pre) →
       mockWorktrees (delete_worktree name s) = pre ++ post).
Proof.
  split_and!; try done.
  - unfold delete_worktree. by destruct (findIndex_name _ _).
  - unfold delete_worktree. by destruct (findIndex_name _ _).
  - unfold delete_worktree. by destruct (findIndex_name _ _).
  - intros Hn%findIndex_name_None. unfold delete_worktree. by rewrite Hn.
  - intros pre w post Hs Hw Hpre. unfold delete_worktree.
    rewrite Hs, (findIndex_name_first name pre w post Hw Hpre). simpl.
    apply delete_middle.
Qed.

Lemma delete_worktree_first_match_witness :
  mockWorktrees (delete_worktree "backend-api" initial) = take 1 mockWorktrees0 ++ [].
Proof.
  eapply (proj2 (proj2 (proj2 (proj2 (proj2
            (delete_worktree_first_match "/repo" "backend-api" 0 initial)))))
            (take 1 mockWorktrees0) _ []).
  - reflexivity.
  - reflexivity.
  - apply (bool_decide_unpack _). by vm_compute.
Defined.

(** X6: Creating a worktree under a name not in use and deleting that name again
    gives back the state before; under a name already in use the deletion
    takes the older worktree and the new one stays. *)
Theorem create_then_delete_worktree (name branch : string) (now : Z) (s : Mock) :
  (name ∉ (wt_name <$> mockWorktrees s) →
     delete_worktree name (create_worktree name branch now s).2 = s)
  ∧ (∀ pre w post,
       mockWorktrees s = pre ++ w :: post →
       wt_name w = name →
       name ∉ (wt_name <$> pre) →
       mockWorktrees (delete_worktree name (create_worktree name branch now s).2)
       = pre ++ post ++ [(create_worktree name branch now s).1]).
Proof.
  split.
  - intros Hn. unfold delete_worktree. simpl.
    rewrite <-(app_nil_r (mockWorktrees s ++ _)), <-app_assoc. simpl.
    rewrite (findIndex_name_first name (mockWorktrees s) _ []) by done.
    rewrite delete_middle, app_nil_r. by destruct s.
  - intros pre w post Hs Hw Hpre. unfold delete_worktree. simpl.
    rewrite Hs, <-app_assoc. simpl.
    rewrite (findIndex_name_first name pre w _ Hw Hpre). simpl.
    by rewrite delete_middle.
Qed.

Lemma create_then_delete_worktree_witness :
  delete_worktree "docs" (create_worktree "docs" "feature/docs" 1704114000000 initial).2
  = initial.
Proof.
  apply (proj1 (create_then_delete_worktree "docs" "feature/docs" 1704114000000 initial)).
  apply (bool_decide_unpack _). by vm_compute.
Defined.

(** X7: Worktrees and tasks never affect one another: a worktree command leaves
    the store, the task list and the pending timers as they are, so deleting
    a worktree neither cancels nor removes the tasks working in it; every
    other command, and every timer, leaves the worktree list as it is. *)
Theorem worktrees_and_tasks_independent (tauri : Tauri) (c : Command) (now : Z)
    (s : Mock) :
  (worktree_command c = true →
     heap (invoke tauri c now s).2 = heap s
     ∧ mockTasks (invoke tauri c now s).2 = mockTasks s
     ∧ timers (invoke tauri c now s).2 = timers s
     ∧ listed (invoke tauri c now s).2 = listed s)
  ∧ (worktree_command c = false →
       mockWorktrees (invoke tauri c now s).2 = mockWorktrees s)
  ∧ (∀ k s', run_timer k now s = Some s' → mockWorktrees s' = mockWorktrees s).
Proof.
  split_and!.
  - intros Hc. destruct c; try discriminate Hc; destruct tauri; simpl; try done;
      unfold delete_worktree; by destruct (findIndex_name _ _).
  - intros Hc. destruct c; try discriminate Hc; destruct tauri; simpl; try done;
      unfold cancel_claude_task; by destruct (find_task _ _ _).
  - by intros k s' (due & l & _ & _ & ->)%run_timer_Some.
Qed.

Lemma worktrees_and_tasks_independent_witness :
  listed (invoke NoTauri (DeleteWorktree "/repo" "frontend-feature") 0 initial).2
  = listed initial.
Proof.
  apply (proj1 (worktrees_and_tasks_independent NoTauri
                  (DeleteWorktree "/repo" "frontend-feature") 0 initial)).
  reflexivity.
Defined.

(** ** The hooks in web mode *)

Lemma mapM_cons_eq {A B} (f : A → Outcome B) (x : A) (l : list A) :
  mapM f (x :: l) = y ← f x; k ← mapM f l; mret (y :: k).
Proof. done. Qed.

Lemma mapM_fmap_Resolved {A} (f : JsVal → Outcome JsVal) (g h : A → JsVal)
    (l : list A) :
  (∀ x, f (g x) = Resolved (h x)) →
  mapM f (g <$> l) = Resolved (h <$> l).
Proof.
  intros Hf. induction l as [|x l IH]; [done|].
  by rewrite !fmap_cons, mapM_cons_eq, Hf, IH.
Qed.

Section WebMode.
Variable new_Date : JsVal → option Z.

(** What the mapping of [refreshTasks] makes of a task object of the mock. *)
Lemma map_task_mock_object t :
  map_task new_Date (ClaudeTask_js t)
  = Resolved (JObj [("id", JStr (task_id t)); ("description", JStr (description t));
                    ("status", TaskStatus_js (status t));
                    ("startedAt", JUndefined); ("completedAt", JUndefined);
                    ("output", strings_js (output t));
                    ("workingDirectory", JUndefined)]).
Proof. destruct t as [? ? ? [?|] [?|] ? ?]; reflexivity. Qed.

(** X8: In web mode [refreshTasks] shows one entry per listed task, in order,
    with its identity, description, status and output; but the mock's objects
    carry camelCase names while the mapping reads snake_case ones, so every
    entry has no start time, no completion time and no working directory, and
    the duration the task list renders for it is "N/A". *)
Theorem refreshTasks_web_mode_drops_times (now now' : Z) (h : ClaudeCode) (s : Mock) :
  let h' := (refreshTasks new_Date NoTauri now (h, s)).1 in
  (refreshTasks new_Date NoTauri now (h, s)).2 = s
  ∧ cc_error h' = None
  ∧ cc_loading h' = false
  ∧ cc_tasks h'
    = (λ t, JObj [("id", JStr (task_id t)); ("description", JStr (description t));
                  ("status", TaskStatus_js (status t));
                  ("startedAt", JUndefined); ("completedAt", JUndefined);
                  ("output", strings_js (output t));
                  ("workingDirectory", JUndefined)]) <$> listed s
  ∧ Forall (λ task, task_duration task now' = Resolved "N/A") (cc_tasks h').
Proof.
  cbn zeta. unfold refreshTasks. simpl.
  rewrite (mapM_fmap_Resolved _ _ _ _ map_task_mock_object). simpl.
  split_and!; try done.
  apply Forall_fmap, Forall_true. intros t. reflexivity.
Qed.

(** The same for worktrees: in web mode [refreshWorktrees] lists every
    worktree of the mock with its id, name, branch, path and status, and with
    both dates built from [undefined] instead of the mock's dates. *)
Lemma map_worktree_mock_object w :
  map_worktree new_Date (GitWorktree_js w)
  = Resolved (JObj [("id", JStr (wt_id w)); ("name", JStr (wt_name w));
                    ("branch", JStr (wt_branch w)); ("path", JStr (wt_path w));
                    ("status", WorktreeStatus_js (wt_status w));
                    ("createdAt", JDate (new_Date JUndefined));
                    ("lastActivity", JDate (new_Date JUndefined))]).
Proof. reflexivity. Qed.

Lemma refreshWorktrees_web_mode repoPath now h s :
  refreshWorktrees new_Date NoTauri repoPath now (h, s)
  = ({| uw_worktrees :=
          (λ w, JObj [("id", JStr (wt_id w)); ("name", JStr (wt_name w));
                      ("branch", JStr (wt_branch w)); ("path", JStr (wt_path w));
                      ("status", WorktreeStatus_js (wt_status w));
                      ("createdAt", JDate (new_Date JUndefined));
                      ("lastActivity", JDate (new_Date JUndefined))])
          <$> mockWorktrees s;
        uw_loading := false; uw_error := None |}, s).
Proof.
  unfold refreshWorktrees. simpl.
  by rewrite (mapM_fmap_Resolved _ _ _ _ map_worktree_mock_object).
Qed.

(** X9: In web mode [createWorktree] never fails and never refuses a name: it
    appends a worktree with path [/tmp/<name>] to the mock's list, also when
    a worktree of that name is there already, and the list shown afterwards
    has one more entry, the last one carrying the name, the branch and the
    path. *)
Theorem createWorktree_web_mode_appends (repoPath name branch : string) (now : Z)
    (h : UseWorktrees) (s : Mock) :
  let r := createWorktree new_Date NoTauri NoTauri repoPath name branch now (h, s) in
  r.1 = Resolved JUndefined
  ∧ uw_error r.2.1 = None
  ∧ mockWorktrees r.2.2
    = mockWorktrees s
      ++ [{| wt_id := "wt-" +:+ pretty now; wt_name := name; wt_branch := branch;
             wt_path := "/tmp/" +:+ name; wt_status := active;
             wt_createdAt := now; wt_lastActivity := now |}]
  ∧ length (uw_worktrees r.2.1) = S (length (mockWorktrees s))
  ∧ ∃ shown, last (uw_worktrees r.2.1) = Some shown
      ∧ get_prop shown "name" = Resolved (JStr name)
      ∧ get_prop shown "branch" = Resolved (JStr branch)
      ∧ get_prop shown "path" = Resolved (JStr ("/tmp/" +:+ name)).
Proof.
  cbn zeta. unfold createWorktree, invoke, mock, create_worktree. cbv beta iota zeta.
  rewrite refreshWorktrees_web_mode. simpl.
  split_and!; try done.
  - rewrite length_fmap, length_app. simpl. lia.
  - rewrite fmap_app, last_app. simpl. eexists. split; [done|]. by split_and!.
Qed.

(** X10: In web mode [deleteWorktree] on a name no worktree carries succeeds
    without an error and changes neither the mock nor the number of worktrees
    shown. *)
Theorem deleteWorktree_web_mode_unknown (repoPath name : string) (now : Z)
    (h : UseWorktrees) (s : Mock) :
  name ∉ (wt_name <$> mockWorktrees s) →
  let r := deleteWorktree new_Date NoTauri NoTauri repoPath name now (h, s) in
  r.1 = Resolved JUndefined
  ∧ uw_error r.2.1 = None
  ∧ r.2.2 = s
  ∧ length (uw_worktrees r.2.1) = length (mockWorktrees s).
Proof.
  intros Hn%findIndex_name_None. cbn zeta.
  unfold deleteWorktree, invoke, mock, delete_worktree. rewrite Hn.
  cbv beta iota zeta. rewrite refreshWorktrees_web_mode. simpl.
  split_and!; try done. by rewrite length_fmap.
Qed.

(** X11: In web mode the count [cleanupCompletedTasks] returns is the number of
    tasks that leave the list: the list shown afterwards is shorter than the
    mock's list before by exactly that count. *)
Theorem cleanupCompletedTasks_web_mode_count (now : Z) (h : ClaudeCode) (s : Mock) :
  let r := cleanupCompletedTasks new_Date NoTauri NoTauri now (h, s) in
  ∃ n : nat,
    r.1 = Resolved (JInt (Z.of_nat n))
    ∧ (length (cc_tasks r.2.1) + n = length (listed s))%nat
    ∧ listed r.2.2 = filter (λ t, ¬ stale (now - 3600000) t) (listed s).
Proof.
  cbn zeta. unfold cleanupCompletedTasks, invoke, mock.
  rewrite cleanup_eq. cbv beta iota zeta.
  assert (Z.of_nat (length (mockTasks s))
          - Z.of_nat (length (filter (λ l, ¬ stale_at (heap s) (now - 3600000) l)
                                (mockTasks s)))
          = Z.of_nat (length (filter (λ t, stale (now - 3600000) t) (listed s))))
    as ->.
  { unfold listed, task_at. rewrite <-length_omap_filter_stale.
    pose proof (length_filter_split (λ l, stale_at (heap s) (now - 3600000) l)
                  (mockTasks s)). lia. }
  set (s' := {| heap := heap s; mockWorktrees := mockWorktrees s;
                mockTasks := filter _ (mockTasks s); timers := timers s |}).
  pose proof (refreshTasks_web_mode_drops_times now now h s') as (Hs & _ & _ & Ht & _).
  cbn zeta in *. destruct (refreshTasks new_Date NoTauri now (h, s')) as [h' s''].
  simpl in Hs, Ht. subst s''. simpl.
  assert (listed s' = filter (λ t, ¬ stale (now - 3600000) t) (listed s)) as Hl
    by apply omap_filter_stale.
  exists (length (filter (λ t, stale (now - 3600000) t) (listed s))).
  split_and!.
  - done.
  - rewrite Ht, length_fmap, Hl.
    pose proof (length_filter_split (λ t, stale (now - 3600000) t) (listed s)). lia.
  - done.
Qed.

End WebMode.

Lemma deleteWorktree_web_mode_unknown_witness :
  (deleteWorktree (λ _, None) NoTauri NoTauri "/repo" "docs" 0
     ({| uw_worktrees := []; uw_loading := true; uw_error := None |}, initial)).1
  = Resolved JUndefined.
Proof.
  refine (proj1 (deleteWorktree_web_mode_unknown (λ _, None) "/repo" "docs" 0
                   {| uw_worktrees := []; uw_loading := true; uw_error := None |}
                   initial _)).
  apply (bool_decide_unpack _). by vm_compute.
Defined.

(** ** Payloads of the backend *)

Lemma mapM_Forall_Resolved {A B} (f : A → Outcome B) (xs : list A) :
  Forall (λ x, ∃ y, f x = Resolved y) xs →
  ∃ ys, mapM f xs = Resolved ys ∧ Forall2 (λ x y, f x = Resolved y) xs ys.
Proof.
  induction 1 as [|x xs [y Hy] _ (ys & Hys & IH)].
  - exists []. split; [done|constructor].
  - exists (y :: ys). rewrite mapM_cons_eq, Hy, Hys. split; [done|by constructor].
Qed.

Lemma mapM_Exists_Rejected {A B} (f : A → Outcome B) (xs : list A) :
  Exists (λ x, resolved (f x) = false) xs → resolved (mapM f xs) = false.
Proof.
  induction 1 as [x xs Hx|x xs _ IH]; rewrite mapM_cons_eq.
  - by destruct (f x).
  - destruct (f x); simpl; [|done]. by destruct (mapM f xs).
Qed.

Lemma get_prop_object v k :
  v ≠ JUndefined → v ≠ JNull → ∃ x, get_prop v k = Resolved x.
Proof. destruct v; simpl; eauto; done. Qed.

Lemma get_prop_nullish v k :
  v = JUndefined ∨ v = JNull → resolved (get_prop v k) = false.
Proof. by intros [-> | ->]. Qed.

Section Payloads.
Variable new_Date : JsVal → option Z.

Lemma map_task_object task :
  task ≠ JUndefined → task ≠ JNull →
  ∃ mapped, map_task new_Date task = Resolved mapped
    ∧ get_prop mapped "id" = get_prop task "id"
    ∧ get_prop mapped "description" = get_prop task "description"
    ∧ get_prop mapped "status" = get_prop task "status"
    ∧ get_prop mapped "output" = get_prop task "output"
    ∧ get_prop mapped "workingDirectory" = get_prop task "working_directory"
    ∧ get_prop mapped "startedAt"
      = date_or_undefined new_Date <$> get_prop task "started_at"
    ∧ get_prop mapped "completedAt"
      = date_or_undefined new_Date <$> get_prop task "completed_at".
Proof.
  intros Hu Hn. unfold map_task.
  destruct (get_prop_object task "id" Hu Hn) as [? ->].
  destruct (get_prop_object task "description" Hu Hn) as [? ->].
  destruct (get_prop_object task "status" Hu Hn) as [? ->].
  destruct (get_prop_object task "started_at" Hu Hn) as [? ->].
  destruct (get_prop_object task "completed_at" Hu Hn) as [? ->].
  destruct (get_prop_object task "output" Hu Hn) as [? ->].
  destruct (get_prop_object task "working_directory" Hu Hn) as [? ->].
  simpl. eexists. split; [done|]. by split_and!.
Qed.

Lemma map_task_nullish task :
  task = JUndefined ∨ task = JNull → resolved (map_task new_Date task) = false.
Proof. by intros [-> | ->]. Qed.

(** X12: [refreshTasks] on a backend payload is all or nothing.  When every
    element of the array is an object (or any value other than [null] and
    [undefined]), the list shown has one entry per element, in order, each
    with the element's [id], [description], [status] and [output], its
    [working_directory] as [workingDirectory], and its two timestamps turned
    into dates when present.  When one element is [null] or [undefined], the
    list shown stays the one before and an error message is recorded.  Either
    way loading ends and the mock state is not touched. *)
Theorem refreshTasks_payload_all_or_nothing (payload : list JsVal) (now : Z)
    (h : ClaudeCode) (s : Mock) :
  let r := refreshTasks new_Date (TauriResolves (JArr payload)) now (h, s) in
  r.2 = s
  ∧ cc_loading r.1 = false
  ∧ (Forall (λ x, x ≠ JUndefined ∧ x ≠ JNull) payload →
       cc_error r.1 = None
       ∧ Forall2 (λ x v,
                    get_prop v "id" = get_prop x "id"
                    ∧ get_prop v "description" = get_prop x "description"
                    ∧ get_prop v "status" = get_prop x "status"
                    ∧ get_prop v "output" = get_prop x "output"
                    ∧ get_prop v "workingDirectory" = get_prop x "working_directory"
                    ∧ get_prop v "startedAt"
                      = date_or_undefined new_Date <$> get_prop x "started_at"
                    ∧ get_prop v "completedAt"
                      = date_or_undefined new_Date <$> get_prop x "completed_at")
                 payload (cc_tasks r.1))
  ∧ (Exists (λ x, x = JUndefined ∨ x = JNull) payload →
       cc_tasks r.1 = cc_tasks h ∧ is_Some (cc_error r.1)).
Proof.
  cbn zeta. unfold refreshTasks, invoke. simpl mbind. unfold js_map.
  split_and!.
  - by destruct (mapM _ _).
  - by destruct (mapM _ _).
  - intros Hall.
    destruct (mapM_Forall_Resolved (map_task new_Date) payload) as (ys & -> & Hys).
    { eapply Forall_impl; [done|]. intros x [Hu Hn].
      destruct (map_task_object x Hu Hn) as (y & ? & _). eauto. }
    simpl. split; [done|].
    apply Forall2_same_length_lookup_2; [by eapply Forall2_length|].
    intros i x v Hx Hv.
    rewrite Forall_forall in Hall. destruct (Hall x) as [Hu Hn];
      [by eapply list_elem_of_lookup_2|].
    destruct (map_task_object x Hu Hn) as (y & Hy & Hprops).
    eapply Forall2_lookup_lr in Hys; [|done..].
    rewrite Hy in Hys. injection Hys as <-. exact Hprops.
  - intros Hbad.
    pose proof (mapM_Exists_Rejected (map_task new_Date) payload) as Hrej.
    destruct (mapM (map_task new_Date) payload) as [ys|err].
    + discriminate Hrej. eapply Exists_impl; [done|]. apply map_task_nullish.
    + simpl. split; [done|by eexists].
Qed.

End Payloads.

Lemma refreshTasks_payload_all_or_nothing_witness :
  cc_tasks (refreshTasks (λ _, None)
              (TauriResolves (JArr [JObj [("id", JStr "t1")]; JNull])) 0
              (useClaudeCode0, initial)).1 = cc_tasks useClaudeCode0
  ∧ is_Some (cc_error (refreshTasks (λ _, None)
                         (TauriResolves (JArr [JObj [("id", JStr "t1")]; JNull])) 0
                         (useClaudeCode0, initial)).1).
Proof.
  apply (proj2 (proj2 (proj2 (refreshTasks_payload_all_or_nothing (λ _, None)
           [JObj [("id", JStr "t1")]; JNull] 0 useClaudeCode0 initial)))).
  apply Exists_cons_tl, Exists_cons_hd. by right.
Defined.

(** ** File names *)

Lemma js_split_nonempty sep s : js_split sep s ≠ [].
Proof.
  destruct s as [|c s]; simpl; [done|].
  case_bool_decide; [done|]. by destruct (js_split sep s).
Qed.

Lemma js_split_no_sep sep s :
  sep ∉ String.list_ascii_of_string s → js_split sep s = [s].
Proof.
  induction s as [|c s IH]; simpl; [done|].
  rewrite not_elem_of_cons. intros [Hne Hs].
  rewrite bool_decide_false by done. by rewrite IH.
Qed.

Lemma js_split_app sep a b :
  js_split sep (a +:+ String sep b) = js_split sep a ++ js_split sep b.
Proof.
  induction a as [|c a IH]; simpl.
  - by rewrite bool_decide_true.
  - case_bool_decide; rewrite IH; [done|].
    pose proof (js_split_nonempty sep a). by destruct (js_split sep a).
Qed.

Lemma last_app_nonempty {A} (l k : list A) : k ≠ [] → last (l ++ k) = last k.
Proof.
  intros Hk. rewrite last_app. destruct (last k) eqn:Hl; [done|].
  by apply last_None in Hl.
Qed.

(** X13: [getFileName] gives the part after the last separator when that part is
    not empty, the whole path when the path has no separator, and the whole
    path, separators included, when the path ends with a separator. *)
Theorem getFileName_last_segment :
  (∀ dir seg, no_slash seg → seg ≠ "" → getFileName (dir +:+ "/" +:+ seg) = seg)
  ∧ (∀ path, no_slash path → getFileName path = path)
  ∧ (∀ dir, getFileName (dir +:+ "/") = dir +:+ "/").
Proof.
  split_and!.
  - intros dir seg Hseg Hne. unfold getFileName.
    change (dir +:+ "/" +:+ seg) with (dir +:+ String "/" seg).
    rewrite js_split_app, (js_split_no_sep _ seg Hseg), last_snoc.
    by rewrite bool_decide_false.
  - intros path Hpath. unfold getFileName.
    rewrite (js_split_no_sep _ path Hpath). simpl. by case_bool_decide.
  - intros dir. unfold getFileName.
    change (dir +:+ "/") with (dir +:+ String "/" "").
    rewrite js_split_app. change (js_split "/" "") with [""].
    by rewrite last_snoc.
Qed.

Lemma getFileName_last_segment_witness :
  getFileName ("src/components" +:+ "/" +:+ "App.tsx") = "App.tsx".
Proof.
  apply (proj1 getFileName_last_segment "src/components" "App.tsx").
  - apply (bool_decide_unpack _). by vm_compute.
  - discriminate.
Defined.

(** ** [analyzeDependencies] *)

Lemma map_dependency_path dep p :
  get_prop dep "file_path" = Resolved (JStr p) →
  ∃ node, map_dependency dep = Resolved node
    ∧ get_prop node "id" = Resolved (JStr p)
    ∧ get_prop node "path" = Resolved (JStr p)
    ∧ get_prop node "name" = Resolved (JStr (getFileName p))
    ∧ get_prop node "type" = Resolved (JStr "file")
    ∧ get_prop node "dependencies" = get_prop dep "dependencies"
    ∧ get_prop node "dependents" = get_prop dep "dependents"
    ∧ get_prop node "impactScore" = get_prop dep "impact_score".
Proof.
  intros Hp. unfold map_dependency. rewrite Hp. simpl.
  assert (dep ≠ JUndefined ∧ dep ≠ JNull) as [Hu Hn].
  { split; intros ->; discriminate Hp. }
  destruct (get_prop_object dep "dependencies" Hu Hn) as [? ->].
  destruct (get_prop_object dep "dependents" Hu Hn) as [? ->].
  destruct (get_prop_object dep "impact_score" Hu Hn) as [? ->].
  simpl. eexists. split; [done|]. by split_and!.
Qed.

Lemma map_dependency_no_path dep :
  (∀ p, get_prop dep "file_path" ≠ Resolved (JStr p)) →
  resolved (map_dependency dep) = false.
Proof.
  intros Hp. unfold map_dependency.
  destruct (get_prop dep "file_path") as [v|] eqn:Hv; simpl; [|done].
  destruct v; simpl; try done. by destruct (Hp s).
Qed.

(** X14: [analyzeDependencies] on a backend payload: when every element carries a
    string [file_path], there is one node per element, in order, whose [id]
    and [path] are that path, whose [name] is its file name, whose [type] is
    "file", and whose dependencies, dependents and impact score are the
    element's.  When one element has no string [file_path], no node at all is
    produced: the dependencies shown stay the ones before and an error is
    recorded.  The overlap analysis held by the hook is never touched. *)
Theorem analyzeDependencies_all_or_nothing (payload : list JsVal)
    (repoPath : string) (filePaths : list string) (now : Z)
    (dependencies : list JsVal) (h : UseOverlapAnalysis) (s : Mock) :
  let r := analyzeDependencies (TauriResolves (JArr payload)) repoPath filePaths now
             (dependencies, h, s) in
  r.2 = s
  ∧ overlapAnalysis r.1.2 = overlapAnalysis h
  ∧ oa_loading r.1.2 = false
  ∧ (Forall (λ x, ∃ p, get_prop x "file_path" = Resolved (JStr p)) payload →
       oa_error r.1.2 = None
       ∧ Forall2 (λ x node,
                    ∃ p, get_prop x "file_path" = Resolved (JStr p)
                      ∧ get_prop node "id" = Resolved (JStr p)
                      ∧ get_prop node "path" = Resolved (JStr p)
                      ∧ get_prop node "name" = Resolved (JStr (getFileName p))
                      ∧ get_prop node "type" = Resolved (JStr "file")
                      ∧ get_prop node "dependencies" = get_prop x "dependencies"
                      ∧ get_prop node "dependents" = get_prop x "dependents"
                      ∧ get_prop node "impactScore" = get_prop x "impact_score")
                 payload r.1.1)
  ∧ (Exists (λ x, ∀ p, get_prop x "file_path" ≠ Resolved (JStr p)) payload →
       r.1.1 = dependencies ∧ is_Some (oa_error r.1.2)).
Proof.
  cbn zeta. unfold analyzeDependencies, invoke. simpl mbind. unfold js_map.
  split_and!.
  - by destruct (mapM _ _).
  - by destruct (mapM _ _).
  - by destruct (mapM _ _).
  - intros Hall.
    destruct (mapM_Forall_Resolved map_dependency payload) as (ys & -> & Hys).
    { eapply Forall_impl; [done|]. intros x [p Hp].
      destruct (map_dependency_path x p Hp) as (y & ? & _). eauto. }
    simpl. split; [done|].
    apply Forall2_same_length_lookup_2; [by eapply Forall2_length|].
    intros i x v Hx Hv.
    rewrite Forall_forall in Hall. destruct (Hall x) as [p Hp];
      [by eapply list_elem_of_lookup_2|].
    destruct (map_dependency_path x p Hp) as (y & Hy & Hprops).
    eapply Forall2_lookup_lr in Hys; [|done..].
    rewrite Hy in Hys. injection Hys as <-. exists p. by split.
  - intros Hbad.
    pose proof (mapM_Exists_Rejected map_dependency payload) as Hrej.
    destruct (mapM map_dependency payload) as [ys|err].
    + discriminate Hrej. eapply Exists_impl; [done|]. apply map_dependency_no_path.
    + simpl. split; [done|by eexists].
Qed.

Lemma analyzeDependencies_all_or_nothing_witness :
  (analyzeDependencies
     (TauriResolves (JArr [JObj [("file_path", JStr "src/App.tsx")]; JObj []]))
     "/repo" ["src/App.tsx"] 0
     ([], {| overlapAnalysis := None; oa_loading := true; oa_error := None |}, initial)).1.1
  = []
  ∧ is_Some (oa_error (analyzeDependencies
     (TauriResolves (JArr [JObj [("file_path", JStr "src/App.tsx")]; JObj []]))
     "/repo" ["src/App.tsx"] 0
     ([], {| overlapAnalysis := None; oa_loading := true; oa_error := None |}, initial)).1.2).
Proof.
  apply (proj2 (proj2 (proj2 (proj2 (analyzeDependencies_all_or_nothing
           [JObj [("file_path", JStr "src/App.tsx")]; JObj []]
           "/repo" ["src/App.tsx"] 0 []
           {| overlapAnalysis := None; oa_loading := true; oa_error := None |}
           initial))))).
  apply Exists_cons_tl, Exists_cons_hd. intros p. discriminate.
Defined.

(** In web mode [analyzeDependencies] does not look at the paths asked for:
    whatever they are, also none, it shows the same two nodes, named
    "App.tsx" and "index.ts". *)
Lemma analyzeDependencies_web_mode_ignores_paths (repoPath : string)
    (filePaths : list string) (now : Z) (dependencies : list JsVal)
    (h : UseOverlapAnalysis) (s : Mock) :
  let r := analyzeDependencies NoTauri repoPath filePaths now (dependencies, h, s) in
  r = (analyzeDependencies NoTauri repoPath [] now (dependencies, h, s))
  ∧ oa_error r.1.2 = None
  ∧ (λ node, get_prop node "id") <$> r.1.1
    = [Resolved (JStr "src/App.tsx"); Resolved (JStr "types/index.ts")]
  ∧ (λ node, get_prop node "name") <$> r.1.1
    = [Resolved (JStr "App.tsx"); Resolved (JStr "index.ts")].
Proof. by split_and!. Qed.

(** ** [TaskMonitor]: durations and expansion *)

(** The subtraction of time values is exact up to [2^53], and off by at most
    one millisecond, on the same side of zero, beyond. *)
Lemma double_sub_exact (a b : Z) :
  Z.abs (a - b) ≤ 2 ^ 53 → double_sub a b = a - b.
Proof. intros H. unfold double_sub. by rewrite bool_decide_true. Qed.

Lemma double_sub_close (a b : Z) :
  a - b - 1 ≤ double_sub a b ≤ a - b + 1
  ∧ (a < b → double_sub a b < 0)
  ∧ (b ≤ a → 0 ≤ double_sub a b).
Proof.
  unfold double_sub. cbv zeta.
  case_bool_decide as Hsmall; [lia|].
  assert (2 < Z.abs (a - b)) by (change (2 ^ 53) with 9007199254740992 in Hsmall; lia).
  destruct (Z.even (a - b)); [lia|].
  case_bool_decide; lia.
Qed.

(** Between the first and the last valid dates the subtraction rounds: the
    exact differences are 17279999999999999 and -17279999999999001. *)
Lemma getDuration_far_apart :
  getDuration (Some (Some (-8639999999999999))) (Some (Some 8640000000000000)) 0
  = "4800000000h 0m"
  ∧ getDuration (Some (Some 8639999999999001)) (Some (Some (-8640000000000000))) 0
    = "-17279999999999s".
Proof. split; by vm_compute. Qed.

(** X15: [getDuration] between two valid dates in order and at most [2^53]
    milliseconds apart, with [S] the whole seconds between them: below a
    minute it shows the seconds; below an hour, minutes and seconds that add
    up to [S] exactly; from an hour on, hours and minutes only, so that up to
    59 seconds are not shown.  A missing completion date stands for the
    current time. *)
Theorem getDuration_units (startedAt end_ now : Z) :
  valid_time startedAt → valid_time end_ →
  startedAt ≤ end_ → end_ - startedAt ≤ 2 ^ 53 →
  let S := (end_ - startedAt) `div` 1000 in
  let shown := getDuration (Some (Some startedAt)) (Some (Some end_)) now in
  0 ≤ S
  ∧ (S < 60 → shown = pretty S +:+ "s")
  ∧ (60 ≤ S < 3600 →
       ∃ m r, shown = pretty m +:+ "m " +:+ pretty r +:+ "s"
         ∧ 1 ≤ m ≤ 59 ∧ 0 ≤ r ≤ 59 ∧ S = 60 * m + r)
  ∧ (3600 ≤ S →
       ∃ h m, shown = pretty h +:+ "h " +:+ pretty m +:+ "m"
         ∧ 1 ≤ h ∧ 0 ≤ m ≤ 59
         ∧ 3600 * h + 60 * m ≤ S < 3600 * h + 60 * m + 60)
  ∧ getDuration (Some (Some startedAt)) None end_ = shown.
Proof.
  intros _ _ Hle Hbound. cbn zeta. unfold getDuration. simpl.
  rewrite double_sub_exact by (rewrite Z.abs_eq; lia).
  set (S := (end_ - startedAt) `div` 1000).
  assert (0 ≤ S) as HS by (apply Z.div_pos; lia).
  assert (0 ≤ S `div` 60) as HM by (apply Z.div_pos; lia).
  split_and!; [done|..].
  - intros Hlt.
    assert (S `div` 60 = 0) as -> by (apply Z.div_small; lia).
    by rewrite !bool_decide_false by done.
  - intros [H60 H3600].
    assert ((S `div` 60) `div` 60 = 0) as ->.
    { apply Z.div_small. split; [done|]. apply Z.div_lt_upper_bound; lia. }
    assert (1 ≤ S `div` 60) by (apply Z.div_le_lower_bound; lia).
    assert (S `div` 60 ≤ 59).
    { apply Z.lt_succ_r. apply Z.div_lt_upper_bound; lia. }
    rewrite bool_decide_false, bool_decide_true by lia.
    exists (S `div` 60), (S `rem` 60). split; [done|].
    rewrite Z.rem_mod_nonneg by lia.
    pose proof (Z.mod_pos_bound S 60). pose proof (Z.div_mod S 60). lia.
  - intros H3600.
    assert (1 ≤ (S `div` 60) `div` 60).
    { apply Z.div_le_lower_bound; [lia|]. apply Z.div_le_lower_bound; lia. }
    rewrite bool_decide_true by lia.
    exists ((S `div` 60) `div` 60), ((S `div` 60) `rem` 60). split; [done|].
    rewrite Z.rem_mod_nonneg by lia.
    pose proof (Z.mod_pos_bound (S `div` 60) 60).
    pose proof (Z.div_mod (S `div` 60) 60).
    pose proof (Z.mod_pos_bound S 60). pose proof (Z.div_mod S 60). lia.
  - done.
Qed.

Lemma getDuration_units_witness :
  ∃ h m, getDuration (Some (Some 0)) (Some (Some 3723999)) 0
         = pretty h +:+ "h " +:+ pretty m +:+ "m"
    ∧ 1 ≤ h ∧ 0 ≤ m ≤ 59
    ∧ 3600 * h + 60 * m ≤ (3723999 - 0) `div` 1000 < 3600 * h + 60 * m + 60.
Proof.
  apply (proj1 (proj2 (proj2 (proj2 (getDuration_units 0 3723999 0
           ltac:(unfold valid_time; lia) ltac:(unfold valid_time; lia)
           ltac:(lia) ltac:(vm_compute; discriminate)))))).
  vm_compute. discriminate.
Defined.

(** X16: The edges of [getDuration]: without a start date it shows "N/A"; with
    an invalid date on either side, "NaNs"; and when the end lies before the
    start, a negative number of seconds, never minutes or hours, however long
    the gap: the whole seconds between the two dates, rounded down, when they
    are at most [2^53] milliseconds apart, and within a second of that
    beyond. *)
Theorem getDuration_edges (startedAt end_ now : Z) (completedAt : option (option Z)) :
  getDuration None completedAt now = "N/A"
  ∧ getDuration (Some None) completedAt now = "NaNs"
  ∧ getDuration (Some (Some startedAt)) (Some None) now = "NaNs"
  ∧ (valid_time startedAt → valid_time end_ → end_ < startedAt →
       ∃ S, getDuration (Some (Some startedAt)) (Some (Some end_)) now
            = pretty S +:+ "s"
         ∧ S < 0
         ∧ (end_ - startedAt) `div` 1000 - 1 ≤ S ≤ (end_ - startedAt) `div` 1000 + 1
         ∧ (startedAt - end_ ≤ 2 ^ 53 → S = (end_ - startedAt) `div` 1000)).
Proof.
  split_and!; try done.
  - by destruct completedAt as [[?|]|].
  - intros _ _ Hlt. unfold getDuration. simpl.
    pose proof (double_sub_close end_ startedAt) as (Hclose & Hneg & _).
    specialize (Hneg Hlt).
    set (S := double_sub end_ startedAt `div` 1000).
    assert (S < 0) as HS by (apply Z.div_lt_upper_bound; lia).
    assert (S `div` 60 < 0) as HM by (apply Z.div_lt_upper_bound; lia).
    assert ((S `div` 60) `div` 60 < 0) as HH by (apply Z.div_lt_upper_bound; lia).
    exists S. rewrite !bool_decide_false by lia. split_and!; [done|done|..].
    + pose proof (Z.div_mod (double_sub end_ startedAt) 1000).
      pose proof (Z.mod_pos_bound (double_sub end_ startedAt) 1000).
      pose proof (Z.div_mod (end_ - startedAt) 1000).
      pose proof (Z.mod_pos_bound (end_ - startedAt) 1000).
      subst S. lia.
    + pose proof (Z.div_mod (double_sub end_ startedAt) 1000).
      pose proof (Z.mod_pos_bound (double_sub end_ startedAt) 1000).
      pose proof (Z.div_mod (end_ - startedAt) 1000).
      pose proof (Z.mod_pos_bound (end_ - startedAt) 1000).
      subst S. lia.
    + intros Hbound. subst S.
      by rewrite double_sub_exact by (rewrite Z.abs_neq; lia).
Qed.

Lemma getDuration_edges_witness :
  ∃ S, getDuration (Some (Some 7200000)) (Some (Some 0)) 0 = pretty S +:+ "s"
    ∧ S < 0
    ∧ (0 - 7200000) `div` 1000 - 1 ≤ S ≤ (0 - 7200000) `div` 1000 + 1
    ∧ (7200000 - 0 ≤ 2 ^ 53 → S = (0 - 7200000) `div` 1000).
Proof.
  apply (proj2 (proj2 (proj2 (getDuration_edges 7200000 0 0 None)))
           ltac:(unfold valid_time; lia) ltac:(unfold valid_time; lia) ltac:(lia)).
Defined.

(** X17: [toggleTaskExpansion] flips the membership of the task and of no other:
    toggling twice gives the set back. *)
Theorem toggleTaskExpansion_flips (taskId : string) (prev : gset string) :
  (taskId ∈ toggleTaskExpansion taskId prev ↔ taskId ∉ prev)
  ∧ (∀ other, other ≠ taskId →
       (other ∈ toggleTaskExpansion taskId prev ↔ other ∈ prev))
  ∧ toggleTaskExpansion taskId (toggleTaskExpansion taskId prev) = prev.
Proof.
  assert (taskId ∈ toggleTaskExpansion taskId prev ↔ taskId ∉ prev) as Hflip.
  { unfold toggleTaskExpansion. case_decide.
    - rewrite elem_of_difference, elem_of_singleton. tauto.
    - rewrite elem_of_union, elem_of_singleton. tauto. }
  assert (∀ p other, other ≠ taskId →
            (other ∈ toggleTaskExpansion taskId p ↔ other ∈ p)) as Hother.
  { intros p other Hne. unfold toggleTaskExpansion. case_decide.
    - rewrite elem_of_difference, elem_of_singleton. tauto.
    - rewrite elem_of_union, elem_of_singleton. tauto. }
  split_and!; [done|by apply Hother|].
  apply set_eq. intros x. destruct (decide (x = taskId)) as [->|Hne].
  - unfold toggleTaskExpansion at 1. case_decide as Hin.
    + rewrite elem_of_difference, elem_of_singleton. apply Hflip in Hin. tauto.
    + rewrite elem_of_union, elem_of_singleton.
      destruct (decide (taskId ∈ prev)); [tauto|]. destruct Hin. by apply Hflip.
  - by rewrite !Hother.
Qed.

Lemma toggleTaskExpansion_flips_witness :
  "task-2" ∈ toggleTaskExpansion "task-1" {[ "task-2" ]}.
Proof.
  apply (proj1 (proj2 (toggleTaskExpansion_flips "task-1" {[ "task-2" ]}))).
  - discriminate.
  - by apply elem_of_singleton.
Defined.

(** ** [TimelineVisualization] *)

(** X18: [getLinks] has one link for every dependency of every node, from the
    node to the dependency, whether or not a node with that id exists; so
    their number is the total number of dependencies. *)
Theorem getLinks_one_per_dependency (nodes : list CommitNode) :
  (∀ source target,
     (source, target) ∈ getLinks nodes ↔
     ∃ node, node ∈ nodes ∧ node_id node = source ∧ target ∈ node_dependencies node)
  ∧ length (getLinks nodes) = sum_list (length ∘ node_dependencies <$> nodes).
Proof.
  unfold getLinks. split.
  - intros source target. rewrite list_elem_of_bind. split.
    + intros (node & [dep [[= -> ->] Hdep]]%list_elem_of_fmap & Hnode). eauto.
    + intros (node & Hnode & <- & Hdep). exists node. split; [|done].
      apply list_elem_of_fmap. eauto.
  - induction nodes as [|node nodes IH]; [done|].
    rewrite bind_cons, length_app, length_fmap, IH. done.
Qed.

Lemma node_id_of_Some nodes filePath i :
  node_id_of nodes filePath = Some i ↔
  ∃ pre node post, nodes = pre ++ node :: post
    ∧ node_filePath node = filePath ∧ node_id node = i
    ∧ Forall (λ n, node_filePath n ≠ filePath) pre.
Proof.
  unfold node_id_of. split.
  - destruct (list_find _ nodes) as [[k node]|] eqn:Hfind; [|done].
    simpl. intros [= <-].
    apply list_find_Some in Hfind as (Hk & Hp & Hbefore).
    exists (take k nodes), node, (drop (S k) nodes).
    split_and!; [by rewrite take_drop_middle|done|done|].
    apply Forall_forall. intros n [j Hj]%list_elem_of_lookup.
    apply lookup_take_Some in Hj as [Hj Hlt]. eauto.
  - intros (pre & node & post & -> & Hp & <- & Hpre).
    assert (list_find (λ n, node_filePath n = filePath) (pre ++ node :: post)
            = Some (length pre, node)) as ->; [|done].
    apply list_find_Some. split_and!.
    + by rewrite list_lookup_middle.
    + done.
    + intros j n Hj Hlt. rewrite lookup_app_l in Hj by done.
      rewrite Forall_forall in Hpre. apply Hpre. by eapply list_elem_of_lookup_2.
Qed.

Lemma length_omap_le {A B} (f : A → option B) (l : list A) :
  (length (omap f l) ≤ length l)%nat.
Proof.
  induction l as [|x l IH]; [done|].
  rewrite omap_cons_eq. destruct (f x); simpl; lia.
Qed.

(** X19: [getActiveNodes]: without a current commit there is none; otherwise an
    id is active exactly when it is not the empty string and is the id of the
    first node whose path is one of the commit's files.  Files with no node
    are skipped, so there are at most as many active nodes as files. *)
Theorem getActiveNodes_first_node_per_file (nodes : list CommitNode) :
  getActiveNodes None nodes = []
  ∧ (∀ commit,
       (length (getActiveNodes (Some commit) nodes) ≤ length (commit_files commit))%nat
       ∧ ∀ i, i ∈ getActiveNodes (Some commit) nodes ↔
              i ≠ ""
              ∧ ∃ filePath pre node post,
                  filePath ∈ commit_files commit
                  ∧ nodes = pre ++ node :: post
                  ∧ node_filePath node = filePath
                  ∧ node_id node = i
                  ∧ Forall (λ n, node_filePath n ≠ filePath) pre).
Proof.
  split; [done|]. intros commit. unfold getActiveNodes. split.
  - apply length_omap_le.
  - intros i. rewrite list_elem_of_omap. split.
    + intros (filePath & Hfile & Hi).
      destruct (node_id_of nodes filePath) as [i'|] eqn:Hnode; [|done].
      case_bool_decide; [done|]. injection Hi as <-.
      split; [done|].
      apply node_id_of_Some in Hnode as (pre & node & post & ? & ? & ? & ?).
      by exists filePath, pre, node, post.
    + intros (Hne & filePath & pre & node & post & Hfile & ? & ? & ? & ?).
      exists filePath. split; [done|].
      assert (node_id_of nodes filePath = Some i) as ->.
      { apply node_id_of_Some. by exists pre, node, post. }
      by rewrite bool_decide_false.
Qed.

Lemma playback_ticks_advance n : ∀ k i,
  i + Z.of_nat k ≤ Z.of_nat n - 1 →
  playback_ticks n k {| currentCommitIndex := i; isPlaying := true |}
  = Some {| currentCommitIndex := i + Z.of_nat k; isPlaying := true |}.
Proof.
  induction k as [|k IH]; intros i Hle; simpl.
  - by rewrite Z.add_0_r.
  - unfold playback_tick. simpl. rewrite bool_decide_false by lia. simpl.
    rewrite IH by lia. f_equal. f_equal. lia.
Qed.

Lemma playback_ticks_app n k1 k2 p :
  playback_ticks n (k1 + k2) p = p' ← playback_ticks n k1 p; playback_ticks n k2 p'.
Proof.
  revert p. induction k1 as [|k1 IH]; intros p; simpl; [done|].
  destruct (playback_tick n p); simpl; [apply IH|done].
Qed.

(** X20: Playback from a commit inside the range advances by one commit per tick,
    reaches the last commit, stops there at the next tick without moving,
    and then has no interval left; it never runs past the last commit.  From
    the last commit or beyond, also with no commits at all, the first tick
    just stops. *)
Theorem playback_stops_at_last_commit (commits_length : nat) (i : Z) :
  (i ≤ Z.of_nat commits_length - 1 →
     let steps := Z.to_nat (Z.of_nat commits_length - 1 - i) in
     (∀ k, (k ≤ steps)%nat →
           playback_ticks commits_length k {| currentCommitIndex := i; isPlaying := true |}
           = Some {| currentCommitIndex := i + Z.of_nat k; isPlaying := true |})
     ∧ playback_ticks commits_length (steps + 1)
         {| currentCommitIndex := i; isPlaying := true |}
       = Some {| currentCommitIndex := Z.of_nat commits_length - 1; isPlaying := false |}
     ∧ playback_ticks commits_length (steps + 2)
         {| currentCommitIndex := i; isPlaying := true |} = None)
  ∧ (Z.of_nat commits_length - 1 ≤ i →
       playback_tick commits_length {| currentCommitIndex := i; isPlaying := true |}
       = Some {| currentCommitIndex := i; isPlaying := false |}).
Proof.
  split.
  - intros Hle. cbn zeta.
    set (steps := Z.to_nat (Z.of_nat commits_length - 1 - i)).
    assert (i + Z.of_nat steps = Z.of_nat commits_length - 1) as Hlast by lia.
    assert (playback_ticks commits_length (steps + 1)
              {| currentCommitIndex := i; isPlaying := true |}
            = Some {| currentCommitIndex := Z.of_nat commits_length - 1;
                      isPlaying := false |}) as Hstop.
    { rewrite playback_ticks_app, playback_ticks_advance by lia. simpl.
      unfold playback_tick. simpl. rewrite bool_decide_true by lia. simpl.
      f_equal. f_equal. lia. }
    split_and!.
    + intros k Hk. apply playback_ticks_advance. lia.
    + done.
    + replace (steps + 2)%nat with ((steps + 1) + 1)%nat by lia.
      by rewrite playback_ticks_app, Hstop.
  - intros Hge. unfold playback_tick. simpl. by rewrite bool_decide_true.
Qed.

Lemma playback_stops_at_last_commit_witness :
  playback_ticks 5 (Z.to_nat (Z.of_nat 5 - 1 - 0) + 1)
    {| currentCommitIndex := 0; isPlaying := true |}
  = Some {| currentCommitIndex := Z.of_nat 5 - 1; isPlaying := false |}.
Proof.
  apply (proj1 (proj2 (proj1 (playback_stops_at_last_commit 5 0) ltac:(lia)))).
Defined.

(** ** Starting and querying through the hooks *)

Section StartAndQuery.
Variable new_Date : JsVal → option Z.

(** X21: In web mode, [startTask] followed by [getTaskStatus] on the identity it
    returned, when that identity was not in use: the query succeeds and shows
    the new task as "running" with its description and the two initial output
    lines, but with no start time and no working directory, which the mapping
    looks for under snake_case names the mock's object does not have. *)
Theorem startTask_then_getTaskStatus_web_mode
    (worktreeName workingDirectory description : string) (now now' : Z)
    (h : ClaudeCode) (s : Mock) :
  unknown ("task-" +:+ pretty now) s →
  let started :=
    startTask new_Date NoTauri NoTauri worktreeName workingDirectory description now
      (h, s) in
  started.1 = Resolved (JStr ("task-" +:+ pretty now))
  ∧ getTaskStatus new_Date NoTauri ("task-" +:+ pretty now) now' started.2.2
    = (Resolved (JObj [("id", JStr ("task-" +:+ pretty now));
                       ("description", JStr description);
                       ("status", JStr "running");
                       ("startedAt", JUndefined); ("completedAt", JUndefined);
                       ("output", strings_js ["Task started..."; "Analyzing codebase..."]);
                       ("workingDirectory", JUndefined)]),
       started.2.2).
Proof.
  intros Hunk. cbn zeta. unfold startTask. rewrite start_mock by discriminate.
  pose proof (get_after_start workingDirectory description now s Hunk) as Hget.
  set (s1 := (start_claude_task workingDirectory description now s).2) in *.
  pose proof (refreshTasks_mock_state new_Date NoTauri now (set_error None h) s1) as Hs.
  destruct (refreshTasks _ _ _ _) as [h' s']. simpl in Hs. subst s'.
  split; [done|]. cbn [fst snd].
  unfold getTaskStatus, invoke, mock. rewrite Hget.
  cbn [from_option]. simpl mbind.
  by rewrite map_task_mock_object.
Qed.

End StartAndQuery.

Lemma startTask_then_getTaskStatus_web_mode_witness :
  (startTask (λ _, None) NoTauri NoTauri "backend-api" "/tmp/backend-api" "x"
     1704114000000 (useClaudeCode0, initial)).1
  = Resolved (JStr ("task-" +:+ pretty 1704114000000)).
Proof.
  refine (proj1 (startTask_then_getTaskStatus_web_mode (λ _, None) "backend-api"
                   "/tmp/backend-api" "x" 1704114000000 0 useClaudeCode0 initial _)).
  apply unknown_find. vm_compute. reflexivity.
Defined.
